(** * bulk_mailer: a shallow embedding of [bulk_mailer.py]

    The development follows the script top-down:
    - [PyStr]: the [str] methods the script calls ([strip], [lower],
      [split], [startswith], slicing);
    - [Re]: a backtracking matcher for the fragment of Python's [re]
      syntax the script uses (ordered alternation, greedy and lazy bounded
      repetition, capture groups, [\b]), with [search], [finditer],
      [findall] and [sub];
    - [Mailer]: the pure helpers ([extract_helper_phrase],
      [fallback_opener], [subject_line], [build_email_body]);
    - [Leads]: the table of leads, with its empty cells;
    - [World] and [Run]: the effectful part ([fetch_site_blurb],
      [gpt_company_personalization], [send_email], the run loop of [main])
      in a state monad over a [world] made of a file system and a trace of
      effects, with the network, the text-generation service, the SMTP
      relay and the clock as oracles of an [env];
    - [Spec] and [Scenario]: the vocabulary of the statements and a few
      concrete runs;
    - the lemmas and theorems.

    Text is modelled as [string] (a sequence of 8-bit characters); character
    classes, case mapping and white space are those of Python on the ASCII
    range, and characters above 127 are carried through unchanged.  File
    operations outside a [try] are taken to succeed, as the script takes
    them to. *)

From Stdlib Require Import String Ascii List Bool Arith ZArith Lia Sorted Permutation.
From Stdlib Require Import Numbers.DecimalString.
From stdpp Require Import gmap strings.

Import ListNotations.

Local Open Scope list_scope.

(* ================================================================== *)
(** * Characters and Python [str] methods *)
(* ================================================================== *)

Module PyStr.

Definition code (c : ascii) : nat := nat_of_ascii c.

Definition in_range (lo hi : nat) (c : ascii) : bool :=
  (lo <=? code c) && (code c <=? hi).

(** [A-Z], [a-z], [0-9] *)
Definition is_upper (c : ascii) : bool := in_range 65 90 c.
Definition is_lower (c : ascii) : bool := in_range 97 122 c.
Definition is_digit (c : ascii) : bool := in_range 48 57 c.
Definition is_alpha (c : ascii) : bool := is_upper c || is_lower c.

(** [str.isspace] and the regex class [\s] on the ASCII range:
    TAB, LF, VT, FF, CR, the separators 0x1C-0x1F, and SPACE. *)
Definition is_space (c : ascii) : bool :=
  in_range 9 13 c || in_range 28 31 c || (code c =? 32).

(** The regex class [\w] on the ASCII range (used by [\b]). *)
Definition is_word (c : ascii) : bool :=
  is_alpha c || is_digit c || (code c =? 95).

Definition lower_ascii (c : ascii) : ascii :=
  if is_upper c then ascii_of_nat (code c + 32) else c.

(** [s.lower()] *)
Fixpoint lower (s : string) : string :=
  match s with
  | EmptyString => EmptyString
  | String c s' => String (lower_ascii c) (lower s')
  end.

(** [s.lstrip(chars)], [s.rstrip(chars)], [s.strip(chars)] for a
    character predicate. *)
Fixpoint lstrip_by (p : ascii -> bool) (s : string) : string :=
  match s with
  | EmptyString => EmptyString
  | String c s' => if p c then lstrip_by p s' else s
  end.

Fixpoint rstrip_by (p : ascii -> bool) (s : string) : string :=
  match s with
  | EmptyString => EmptyString
  | String c s' =>
      match rstrip_by p s' with
      | EmptyString => if p c then EmptyString else String c EmptyString
      | t => String c t
      end
  end.

Definition strip_by (p : ascii -> bool) (s : string) : string :=
  rstrip_by p (lstrip_by p s).

(** [s.strip()] *)
Definition strip (s : string) : string := strip_by is_space s.

(** [s.strip(".")] *)
Definition strip_dots (s : string) : string :=
  strip_by (fun c => code c =? 46) s.

(** [len(s.split())]: the number of maximal runs of non-space
    characters.  [inw] tells whether the previous character belonged to
    a word. *)
Fixpoint count_words_from (inw : bool) (s : string) : nat :=
  match s with
  | EmptyString => 0
  | String c s' =>
      if is_space c then count_words_from false s'
      else (if inw then 0 else 1) + count_words_from true s'
  end.

Definition count_words (s : string) : nat := count_words_from false s.

(** [s.startswith(p)] *)
Definition startswith (p s : string) : bool := String.prefix p s.

(** [s[:n]] and [s[n:]] for [n >= 0] *)
Fixpoint take (n : nat) (s : string) : string :=
  match n, s with
  | S n', String c s' => String c (take n' s')
  | _, _ => EmptyString
  end.

Fixpoint drop (n : nat) (s : string) : string :=
  match n, s with
  | S n', String _ s' => drop n' s'
  | _, _ => s
  end.

(** [bool(s)] *)
Definition truthy (s : string) : bool :=
  match s with EmptyString => false | _ => true end.

(** [str(n)] for a non-negative integer *)
Definition of_nat (n : nat) : string :=
  NilEmpty.string_of_uint (Nat.to_uint n).

Definition chars (s : string) : list ascii := list_ascii_of_string s.
Definition of_chars (l : list ascii) : string := string_of_list_ascii l.

End PyStr.

(* ================================================================== *)
(** * The fragment of Python's [re] used by the script *)
(* ================================================================== *)

Module Re.
Import PyStr.

Inductive regex : Type :=
| Eps                                   (* the empty pattern *)
| Chr (p : ascii -> bool)               (* a literal or a class *)
| Cat (r1 r2 : regex)                   (* r1 r2 *)
| Alt (r1 r2 : regex)                   (* r1|r2, tried in order *)
| Rep (greedy : bool) (lo : nat) (hi : option nat) (r : regex)
                                        (* r{lo,hi}, r{lo,hi}? *)
| Grp (n : nat) (r : regex)             (* capture group number n *)
| WordB.                                (* \b *)

(** Capture groups: group number, start and end offsets; the most
    recent binding first. *)
Definition captures := list (nat * (nat * nat)).

Fixpoint group_span (n : nat) (caps : captures) : option (nat * nat) :=
  match caps with
  | [] => None
  | (g, sp) :: rest => if g =? n then Some sp else group_span n rest
  end.

Definition word_at (s : list ascii) (i : nat) : bool :=
  match nth_error s i with
  | Some c => is_word c
  | None => false
  end.

(** [\b] holds at offset [i] when exactly one of the characters before
    and after [i] is a word character (the ends of the subject count as
    non-word). *)
Definition at_boundary (s : list ascii) (i : nat) : bool :=
  xorb (match i with 0 => false | S j => word_at s j end) (word_at s i).

Definition below (count : nat) (hi : option nat) : bool :=
  match hi with
  | None => true
  | Some h => count <? h
  end.

(** The loop of a repetition [r{lo,hi}] whose body is matched by
    [body]: [count] iterations are done, the next one starts at offset
    [i].  A greedy repetition first tries one more iteration and then
    the rest of the pattern [k]; a lazy one the other way round.  An
    iteration that consumes nothing is abandoned.  [fuel] bounds the
    number of iterations: it starts above the length of the subject, and
    every iteration that is kept consumes at least one character. *)
Fixpoint rep_loop {A : Type}
         (body : nat -> captures -> (nat -> captures -> option A) -> option A)
         (greedy : bool) (lo : nat) (hi : option nat)
         (k : nat -> captures -> option A)
         (fuel count i : nat) (caps : captures) {struct fuel} : option A :=
  match fuel with
  | 0 => None
  | S fuel' =>
      let more (_ : unit) :=
        if below count hi
        then body i caps
               (fun j c => if j =? i then None
                           else rep_loop body greedy lo hi k fuel' (S count) j c)
        else None in
      let stop (_ : unit) :=
        if lo <=? count then k i caps else None in
      if greedy
      then match more tt with Some a => Some a | None => stop tt end
      else match stop tt with Some a => Some a | None => more tt end
  end.

Section Matcher.
Variable s : list ascii.
Context {A : Type}.

(** [m r i caps k]: match [r] at offset [i], then continue with [k];
    alternatives are explored in the order of Python's backtracking
    matcher and the first complete success is returned. *)
Fixpoint m (r : regex) (i : nat) (caps : captures)
         (k : nat -> captures -> option A) {struct r} : option A :=
  match r with
  | Eps => k i caps
  | Chr p =>
      match nth_error s i with
      | Some c => if p c then k (S i) caps else None
      | None => None
      end
  | Cat r1 r2 => m r1 i caps (fun j c => m r2 j c k)
  | Alt r1 r2 =>
      match m r1 i caps k with
      | Some a => Some a
      | None => m r2 i caps k
      end
  | Rep g lo hi r' => rep_loop (m r') g lo hi k (S (length s)) 0 i caps
  | Grp n r' => m r' i caps (fun j c => k j ((n, (i, j)) :: c))
  | WordB => if at_boundary s i then k i caps else None
  end.
End Matcher.

(** A match object: span of the whole match and the groups. *)
Record rmatch := { m_start : nat; m_end : nat; m_caps : captures }.

Definition match_at (r : regex) (s : list ascii) (i : nat) : option rmatch :=
  m s r i [] (fun j c => Some {| m_start := i; m_end := j; m_caps := c |}).

(** Leftmost match starting at or after [i]; [n] bounds the number of
    start offsets still to try. *)
Fixpoint search_upto (n : nat) (r : regex) (s : list ascii) (i : nat)
  : option rmatch :=
  match match_at r s i with
  | Some mt => Some mt
  | None =>
      match n with
      | 0 => None
      | S n' => search_upto n' r s (S i)
      end
  end.

Definition search_from (r : regex) (s : list ascii) (i : nat) : option rmatch :=
  if length s <? i then None else search_upto (length s - i) r s i.

(** [re.search(r, s)] *)
Definition search (r : regex) (s : string) : option rmatch :=
  search_from r (chars s) 0.

(** Successive non-overlapping matches, left to right.  After an empty
    match the scan moves one character on (no pattern of the script
    matches the empty string). *)
Fixpoint finditer_from (fuel : nat) (r : regex) (s : list ascii) (i : nat)
  : list rmatch :=
  match fuel with
  | 0 => []
  | S fuel' =>
      match search_from r s i with
      | None => []
      | Some mt =>
          mt :: finditer_from fuel' r s
                  (if m_end mt =? m_start mt then S (m_end mt) else m_end mt)
      end
  end.

(** [re.finditer(r, s)] *)
Definition finditer (r : regex) (s : string) : list rmatch :=
  finditer_from (S (String.length s)) r (chars s) 0.

Definition slice (s : list ascii) (i j : nat) : list ascii :=
  firstn (j - i) (skipn i s).

(** [m.group(n)] for a group that took part in the match *)
Definition group (s : string) (mt : rmatch) (n : nat) : string :=
  match group_span n (m_caps mt) with
  | Some (i, j) => of_chars (slice (chars s) i j)
  | None => EmptyString
  end.

(** [re.findall(r, s)] for a pattern with exactly one group *)
Definition findall1 (r : regex) (s : string) : list string :=
  map (fun mt => group s mt 1) (finditer r s).

(** [re.sub(r, repl, s)] for a replacement without back-references *)
Fixpoint sub_go (repl : list ascii) (s : list ascii) (pos : nat)
         (ms : list rmatch) : list ascii :=
  match ms with
  | [] => skipn pos s
  | mt :: rest =>
      slice s pos (m_start mt) ++ repl ++ sub_go repl s (m_end mt) rest
  end.

Definition sub (r : regex) (repl : string) (s : string) : string :=
  of_chars (sub_go (chars repl) (chars s) 0 (finditer r s)).

(** ** Pattern builders *)

Definition chr_eq (c : ascii) : regex := Chr (Ascii.eqb c).

(** a literal under [re.I] *)
Definition chr_ci (c : ascii) : regex :=
  Chr (fun x => Ascii.eqb (lower_ascii x) (lower_ascii c)).

Fixpoint lit (s : string) : regex :=
  match s with
  | EmptyString => Eps
  | String c EmptyString => chr_eq c
  | String c s' => Cat (chr_eq c) (lit s')
  end.

Fixpoint lit_ci (s : string) : regex :=
  match s with
  | EmptyString => Eps
  | String c EmptyString => chr_ci c
  | String c s' => Cat (chr_ci c) (lit_ci s')
  end.

Fixpoint seq (rs : list regex) : regex :=
  match rs with
  | [] => Eps
  | [r] => r
  | r :: rest => Cat r (seq rest)
  end.

Fixpoint alt (rs : list regex) : regex :=
  match rs with
  | [] => Chr (fun _ => false)
  | [r] => r
  | r :: rest => Alt r (alt rest)
  end.

Definition star (r : regex) : regex := Rep true 0 None r.
Definition plus (r : regex) : regex := Rep true 1 None r.
Definition plus_lazy (r : regex) : regex := Rep false 1 None r.
Definition between (lo hi : nat) (r : regex) : regex := Rep true lo (Some hi) r.

(** [\s] and, under [re.S], [.] *)
Definition ws : regex := Chr is_space.
Definition dot_all : regex := Chr (fun _ => true).

End Re.

(* ================================================================== *)
(** * The pure helpers of [bulk_mailer.py] *)
(* ================================================================== *)

Module Mailer.
Import PyStr Re.

(** ** Constant content *)

Definition YOUR_DEGREE : string := "MSci Artificial Intelligence, King’s College London".
Definition YOUR_PHONE : string := "07525483773".
Definition YOUR_EMAIL : string := "hissanomar786@hotmail.com".
Definition YOUR_GITHUB : string := "https://github.com/Hissan7".
Definition YOUR_LINKEDIN : string := "https://www.linkedin.com/in/hissanomar".

Definition RESUME_PARAGRAPH : string :=
  "I’m Hissan Omar, currently pursuing an MSci in Artificial Intelligence at King’s College London. "
  +:+ "My background spans AI, finance, and data analytics — from developing an Option Value Predictor using "
  +:+ "Monte Carlo simulations and the Black-Scholes model to building a Sentiment-Based Alpha Generator that "
  +:+ "links social media trends to stock returns.".

Definition LONDON_CLOSING : string :=
  "If there’s any way I could take a bit off your plate — whether through research, data processing, "
  +:+ "or analytics support — I’d love to contribute and learn from your team in London."
  +:+ "I'm open to a short chat, discussing possible tasks within your firm. I hope to hearing back from you soon !".

Definition NL : string := String (ascii_of_nat 10) EmptyString.

(** ** The patterns of [extract_helper_phrase] *)

(** [\s+] *)
Definition re_spaces : regex := plus ws.

(** [[A-Za-z\- ]] *)
Definition is_phrase_char (c : ascii) : bool :=
  is_alpha c || (code c =? 45) || (code c =? 32).

(** [\b(in|on|around|for|within)\s+([A-Za-z][A-Za-z\- ]{3,50})] *)
Definition re_prep : regex :=
  seq [ WordB;
        Grp 1 (alt [lit "in"; lit "on"; lit "around"; lit "for"; lit "within"]);
        plus ws;
        Grp 2 (Cat (Chr is_alpha) (between 3 50 (Chr is_phrase_char))) ].

(** [[^a-z\- ]+] *)
Definition re_not_lower_phrase : regex :=
  plus (Chr (fun c => negb (is_lower c || (code c =? 45) || (code c =? 32)))).

(** [[A-Z][a-z]+] *)
Definition cap_word : regex := Cat (Chr is_upper) (plus (Chr is_lower)).

(** [\b([A-Z][a-z]+(?:\s+[A-Z][a-z]+){0,3})\b] *)
Definition re_caps : regex :=
  seq [ WordB;
        Grp 1 (Cat cap_word (between 0 3 (Cat (plus ws) cap_word)));
        WordB ].

Definition default_phrase : string := "analytics support".

Definition keywords : list string :=
  [ "sustainable finance"; "inclusive finance"; "credit analytics"; "portfolio risk";
    "quant research"; "deal sourcing"; "market intelligence"; "growth analytics";
    "data engineering"; "automation"; "fund operations"; "fintech infrastructure" ].

(** [3 <= len(s) <= 40] *)
Definition len_ok (s : string) : bool :=
  (3 <=? String.length s) && (String.length s <=? 40).

(** The loop over [re.finditer] (lines 170-174), on the collapsed text. *)
Definition prep_phrase (txt : string) (mt : rmatch) : string :=
  sub re_not_lower_phrase EmptyString (lower (strip (group txt mt 2))).

Definition prep_candidates (txt : string) : list string :=
  List.filter len_ok (map (prep_phrase txt) (finditer re_prep txt)).

(** The loop over [re.findall] (lines 177-179), on the original text. *)
Definition caps_candidates (text : string) : list string :=
  map lower (findall1 re_caps text).

(** [candidates] as it stands after [candidates.extend(keywords)]. *)
Definition candidates (text : string) : list string :=
  prep_candidates (sub re_spaces " " text) ++ caps_candidates text ++ keywords.

(** [re.sub(r"\s+", " ", c.strip())] *)
Definition normalize (c : string) : string := sub re_spaces " " (strip c).

(** The loop building [cleaned] (lines 189-193). *)
Definition clean (cands : list string) : list string :=
  List.filter len_ok (map normalize cands).

(** The sort key [(abs(len(s.split()) - 3), len(s))], compared as Python
    compares tuples. *)
Definition absdiff (a b : nat) : nat := (a - b) + (b - a).

Definition sort_key (s : string) : nat * nat :=
  (absdiff (count_words s) 3, String.length s).

Definition key_le (a b : nat * nat) : bool :=
  (fst a <? fst b) || ((fst a =? fst b) && (snd a <=? snd b)).

(** [list.sort(key=...)] is stable: an element is placed before the
    first one with a key at least as large. *)
Fixpoint insert_sorted (x : string) (l : list string) : list string :=
  match l with
  | [] => [x]
  | y :: l' =>
      if key_le (sort_key x) (sort_key y) then x :: y :: l'
      else y :: insert_sorted x l'
  end.

Fixpoint sort_phrases (l : list string) : list string :=
  match l with
  | [] => []
  | x :: l' => insert_sorted x (sort_phrases l')
  end.

(** Lines 195-199: the best of [cleaned], or the default. *)
Definition select (cleaned : list string) : string :=
  match sort_phrases cleaned with
  | c :: _ => c
  | [] => default_phrase
  end.

Definition extract_helper_phrase (text : string) : string :=
  if negb (truthy text) then default_phrase
  else select (clean (candidates text)).

(** ** Composition of the email *)

Definition fallback_opener (company blurb your_role : string) : string :=
  if truthy blurb then
    let key := extract_helper_phrase blurb in
    "I’ve been looking into " +:+ company +:+ " and I really like your focus on " +:+ key +:+ ". "
    +:+ "Given my background in AI-driven financial modelling and data analytics, "
    +:+ "I’d love to support work in this area as a " +:+ your_role +:+ "."
  else
    "I’ve been exploring the work that " +:+ company
    +:+ " does and I’m excited about your approach to building in finance. "
    +:+ "With my background in AI and quantitative analysis, I’d love to support your team as a "
    +:+ your_role +:+ ".".

Definition subject_prefix : string := "Msci AI student willing to help ".

Definition subject_line (company helper_phrase : string) : string :=
  let company_simple := strip company in
  let phrase := lower (strip helper_phrase) in
  subject_prefix +:+ company_simple +:+ " with " +:+ phrase.

(** [opener[0].lower() + opener[1:]] for a non-empty [opener] *)
Definition lower_first (opener : string) : string :=
  lower (take 1 opener) +:+ drop 1 opener.

Definition signature_block (your_name website : string) : string :=
  "Best," +:+ NL
  +:+ your_name +:+ NL
  +:+ YOUR_DEGREE +:+ NL
  +:+ "Phone: " +:+ YOUR_PHONE +:+ NL
  +:+ "Email: " +:+ YOUR_EMAIL +:+ NL
  +:+ "GitHub: " +:+ YOUR_GITHUB +:+ NL
  +:+ "LinkedIn: " +:+ YOUR_LINKEDIN +:+ NL
  +:+ "Website noted: " +:+ (if truthy website then website else "-") +:+ NL.

Definition build_email_body (company greeting opener website your_name : string)
  : string :=
  let greeting :=
    if truthy greeting then greeting
    else "Hello " +:+ company +:+ " team. I hope this message finds you in good health," in
  let opener_block :=
    if truthy opener then "I'm fascinated by how " +:+ lower_first opener
    else "I'm fascinated by how your work fits into the broader finance and technology landscape." in
  greeting +:+ NL +:+ NL
  +:+ opener_block +:+ NL +:+ NL
  +:+ RESUME_PARAGRAPH +:+ NL +:+ NL
  +:+ LONDON_CLOSING +:+ NL +:+ NL
  +:+ signature_block your_name website.

End Mailer.

(* ================================================================== *)
(** * The table of leads *)
(* ================================================================== *)

Module Leads.
Import PyStr.

(** A cell of the table as pandas hands it over: [NaN] for an empty
    cell, [Str s] for any other value, [s] being its [str()] (the script
    reads a cell only through [str] and [pd.isna]). *)
Inductive cell : Type :=
| NaN
| Str (s : string).

(** [str(x)] *)
Definition py_str (x : cell) : string :=
  match x with
  | NaN => "nan"
  | Str s => s
  end.

(** [pd.isna(x)] *)
Definition isna (x : cell) : bool :=
  match x with
  | NaN => true
  | Str _ => false
  end.

Record DataFrame : Type := { columns : list string; rows : list (list cell) }.

(** [name in df.columns] *)
Definition has_column (cols : list string) (name : string) : bool :=
  existsb (String.eqb name) cols.

(** A row as yielded by [df.iterrows()]: the cells labelled by the
    columns.  [row_get cols vals name default] is
    [row.get(name, default)]. *)
Fixpoint row_lookup (cols : list string) (vals : list cell) (name : string)
  : option cell :=
  match cols, vals with
  | c :: cs, v :: vs => if String.eqb c name then Some v else row_lookup cs vs name
  | _, _ => None
  end.

Definition row_get (cols : list string) (vals : list cell) (name default : string)
  : cell :=
  match row_lookup cols vals name with
  | Some v => v
  | None => Str default
  end.

Definition one_of (names : list string) (s : string) : bool :=
  existsb (String.eqb s) names.

(** The renaming of [normalize_columns]. *)
Definition normalize_column (col : string) : string :=
  let lower := lower (strip col) in
  if one_of ["company"; "company name"; "organisation"; "organization"] lower then "Company"
  else if one_of ["website"; "site"; "url"; "homepage"] lower then "Website"
  else if one_of ["email"; "e-mail"; "contact"] lower then "Email"
  else if one_of ["greeting"; "salutation"] lower then "Greeting"
  else if one_of ["first line"; "first_line"; "opener"; "custom line"] lower then "First Line"
  else if one_of ["status"] lower then "Status"
  else col.

Definition normalize_columns (df : DataFrame) : DataFrame :=
  {| columns := map normalize_column (columns df); rows := rows df |}.

(** [df.iterrows()] with the default integer index *)
Fixpoint iterrows_from (i : nat) (rs : list (list cell)) : list (nat * list cell) :=
  match rs with
  | [] => []
  | r :: rest => (i, r) :: iterrows_from (S i) rest
  end.

Definition iterrows (df : DataFrame) : list (nat * list cell) :=
  iterrows_from 0 (rows df).

End Leads.

(* ================================================================== *)
(** * The world: file system, trace of effects, oracles *)
(* ================================================================== *)

Module World.

(** What the script reads off a fetched page: the status code, the
    [Content-Type] header (empty when absent), the [content] attribute
    of the first [meta name=description] tag when it has a non-empty
    one, and the text of the first [p] element as
    [get_text(" ", strip=True)] returns it. *)
Record http_response : Type := {
  status_code : nat;
  content_type : string;
  meta_description : option string;
  first_paragraph : option string
}.

(** The message handed to the SMTP session by [send_email].  An
    attachment is recorded as the path that was read and its content (the
    script attaches it under the last component of the path, with a
    guessed MIME type). *)
Record message : Type := {
  msg_from : string;
  msg_to : string;
  msg_subject : string;
  msg_body : string;
  msg_attachments : list (string * string)
}.

Inductive event : Type :=
| EvPrint (line : string)
| EvMkdir (path : string)
| EvHttpGet (url : string)
| EvChat (prompt : string)
| EvWrite (path content : string)      (* open(path, "w") and write *)
| EvAppend (path content : string)     (* open(path, "a") and write *)
| EvSmtp (host port user pass : string) (starttls : bool) (msg : message)
| EvSleep (seconds : Z).

Record world : Type := { fs : gmap string string; trace : list event }.

(** The environment of a run.  The oracles take the number of effects
    performed so far, so that the same request may be answered
    differently at different times.  A failing call (an exception) is
    [None] for [http_get], [inl] with the text of the exception for
    [chat_create], and [Some] with that text for [smtp_deliver]. *)
Record env : Type := {
  getenv : string -> option string;
  openai_client : bool;                 (* the client could be built *)
  cwd : string;
  urljoin : string -> string -> string;
  http_get : nat -> string -> option http_response;
  chat_create : nat -> string -> string + string;
  smtp_deliver : nat -> string -> string -> string -> string -> message -> option string;
  utcnow : nat -> string
}.

(** ** The state monad *)

Definition M (A : Type) : Type := world -> A * world.

Definition ret {A : Type} (a : A) : M A := fun w => (a, w).

Definition bind {A B : Type} (c : M A) (k : A -> M B) : M B :=
  fun w => let (a, w') := c w in k a w'.

Definition emit (e : event) : M unit :=
  fun w => (tt, {| fs := fs w; trace := trace w ++ [e] |}).

(** the number of effects so far *)
Definition tick : M nat := fun w => (length (trace w), w).

Definition print (line : string) : M unit := emit (EvPrint line).


Definition read_file (path : string) : M (option string) :=
  fun w => (fs w !! path, w).

(** [open(path, "w")] followed by [write(content)] *)
Definition write_file (path content : string) : M unit :=
  fun w => (tt, {| fs := <[path := content]> (fs w);
                   trace := trace w ++ [EvWrite path content] |}).


End World.

Notation "'let!' x ':=' c1 'in' c2" := (World.bind c1 (fun x => c2))
  (at level 10, x name, c1 at level 100, c2 at level 200).
Notation "'let!' ' pat ':=' c1 'in' c2" :=
  (World.bind c1 (fun x => match x with pat => c2 end))
  (at level 10, pat pattern, c1 at level 100, c2 at level 200).

(* ================================================================== *)
(** * The effectful part of [bulk_mailer.py] *)
(* ================================================================== *)

Module Run.
Import PyStr Re Mailer Leads World.

(** The command line, after [parser.parse_args()]. *)
Record args : Type := {
  from_name : string;
  from_email : string;
  role : string;
  resume : option string;
  rate_sec : Z;
  max : Z;
  dry_run : bool;
  outbox : string
}.

(** A send record, one per processed row. *)
Record log_record : Type := {
  timestamp : string;
  company : string;
  email : string;
  website : string;
  greeting : string;
  first_line : string;
  subject : string;
  result : string
}.

(** [sep.join(parts)] *)
Fixpoint join (sep : string) (parts : list string) : string :=
  match parts with
  | [] => EmptyString
  | [x] => x
  | x :: rest => x +:+ sep +:+ join sep rest
  end.

(** [needle in s] *)
Fixpoint contains (needle s : string) : bool :=
  String.prefix needle s ||
  match s with
  | EmptyString => false
  | String _ s' => contains needle s'
  end.

(** [Path(dir) / name] for a relative [name] *)
Definition path_join (dir name : string) : string := dir +:+ "/" +:+ name.

(** ** The writer of the send log ([csv.DictWriter], default dialect) *)

Definition QUOTE : ascii := ascii_of_nat 34.

Definition csv_special (c : ascii) : bool :=
  (code c =? 44) || (code c =? 34) || (code c =? 13) || (code c =? 10).

Fixpoint csv_escape (f : string) : string :=
  match f with
  | EmptyString => EmptyString
  | String c f' =>
      if code c =? 34 then String c (String c (csv_escape f'))
      else String c (csv_escape f')
  end.

Definition csv_field (f : string) : string :=
  if existsb csv_special (chars f)
  then String QUOTE (csv_escape f) +:+ String QUOTE EmptyString
  else f.

Definition CRLF : string :=
  String (ascii_of_nat 13) (String (ascii_of_nat 10) EmptyString).

Definition csv_line (fields : list string) : string :=
  join "," (map csv_field fields) +:+ CRLF.


Definition record_fields (r : log_record) : list string :=
  [timestamp r; company r; email r; website r; greeting r; first_line r; subject r; result r].


(** [writer.writerows(sent_log)] *)
Fixpoint csv_rows (sent_log : list log_record) : string :=
  match sent_log with
  | [] => EmptyString
  | r :: rest => csv_line (record_fields r) +:+ csv_rows rest
  end.


(** ** Patterns of the text-generation reply (flags [re.S | re.I]) *)

(** [OPENER:\s*(.+?)\s*PHRASE:] *)
Definition re_opener : regex :=
  seq [ lit_ci "OPENER:"; star ws; Grp 1 (plus_lazy dot_all); star ws; lit_ci "PHRASE:" ].

(** [PHRASE:\s*(.+)] *)
Definition re_phrase : regex :=
  seq [ lit_ci "PHRASE:"; star ws; Grp 1 (plus dot_all) ].

(** [[^A-Za-z0-9_.-]+] *)
Definition is_safe_char (c : ascii) : bool :=
  is_alpha c || is_digit c || (code c =? 95) || (code c =? 46) || (code c =? 45).

Definition re_unsafe : regex := plus (Chr (fun c => negb (is_safe_char c))).

Section WithEnv.
Variable E : env.

(** ** [fetch_site_blurb] *)

Definition page_texts (r : http_response) : list string :=
  match meta_description r with Some c => [strip c] | None => [] end
  ++ match first_paragraph r with Some t => [t] | None => [] end.

Definition joined_texts (texts : list string) : string :=
  join " " (map strip
              (List.filter (fun t => truthy t && (40 <? String.length (strip t))) texts)).

Fixpoint fetch_loop (us : list string) (texts : list string) : M string :=
  match us with
  | [] => ret EmptyString
  | u :: rest =>
      let! _ := emit (EvHttpGet u) in
      let! t := tick in
      match http_get E t u with
      | None => fetch_loop rest texts
      | Some r =>
          if negb (status_code r =? 200) || negb (contains "text/html" (content_type r))
          then fetch_loop rest texts
          else
            let texts := texts ++ page_texts r in
            let joined := joined_texts texts in
            if truthy joined then ret (take 1200 (sub re_spaces " " joined))
            else fetch_loop rest texts
      end
  end.

Definition fetch_site_blurb (url : string) : M string :=
  if negb (truthy url) then ret EmptyString
  else
    let url :=
      if startswith "http://" url || startswith "https://" url then url
      else "http://" +:+ url in
    fetch_loop [url; urljoin E url "/about"; urljoin E url "/about-us";
                urljoin E url "/company"] [].

(** ** [gpt_company_personalization] *)

Definition gpt_prompt (company website blurb your_role : string) : string :=
  "You are helping an MSci AI student cold-email finance/VC/asset-management firms." +:+ NL +:+ NL
  +:+ "Given the company description and candidate profile, write:" +:+ NL
  +:+ "1) A 3–5 sentence paragraph that:" +:+ NL
  +:+ "   - briefly explains what the company does (using the blurb/website info)," +:+ NL
  +:+ "   - mentions 1–2 specific aspects of their focus (e.g., sector, geography, strategy)," +:+ NL
  +:+ "   - and clearly states why an AI/quant-focused intern is a good fit." +:+ NL
  +:+ "2) A short 2–4 word phrase suitable for 'helping with {something}' in an email subject line." +:+ NL +:+ NL
  +:+ "Output STRICTLY in this format:" +:+ NL
  +:+ "OPENER: <paragraph>" +:+ NL
  +:+ "PHRASE: <short phrase>" +:+ NL +:+ NL
  +:+ "Company: " +:+ company +:+ NL
  +:+ "Website: " +:+ website +:+ NL
  +:+ "Blurb: " +:+ blurb +:+ NL
  +:+ "Candidate role: " +:+ your_role +:+ " with AI/quant + data analytics background.".

(** [blurb or opener] *)
Definition blurb_or (blurb opener : string) : string :=
  if truthy blurb then blurb else opener.

(** The heuristic pair returned on each fallback path. *)
Definition heuristic_pair (company blurb your_role : string) : string * string :=
  let opener := fallback_opener company blurb your_role in
  (opener, extract_helper_phrase (blurb_or blurb opener)).

(** The parsing of the reply (lines 246-265). *)
Definition parse_reply (company blurb your_role content : string) : string * string :=
  let text := strip content in
  let opener :=
    match search re_opener text with
    | Some mt => strip (group text mt 1)
    | None => fallback_opener company blurb your_role
    end in
  let helper :=
    match search re_phrase text with
    | Some mt => strip (group text mt 1)
    | None => extract_helper_phrase (blurb_or blurb opener)
    end in
  let helper := lower (strip_dots (strip helper)) in
  let helper :=
    if negb (truthy helper) then extract_helper_phrase (blurb_or blurb opener)
    else helper in
  (opener, helper).

Definition gpt_company_personalization (company website blurb your_role : string)
  : M (string * string) :=
  let api_key := getenv E "OPENAI_API_KEY" in
  if negb (truthy (default EmptyString api_key)) || negb (openai_client E) then
    let! _ := print ("[NO GPT] Using fallback opener for " +:+ company) in
    ret (heuristic_pair company blurb your_role)
  else
    let! _ := print ("Creating personalized opener for " +:+ company +:+ "...") in
    let prompt := gpt_prompt company website blurb your_role in
    let! _ := emit (EvChat prompt) in
    let! t := tick in
    match chat_create E t prompt with
    | inr content => ret (parse_reply company blurb your_role content)
    | inl e =>
        let! _ := print ("[GPT ERROR for " +:+ company +:+ "]: " +:+ e) in
        ret (heuristic_pair company blurb your_role)
    end.

(** ** [send_email] *)

Fixpoint attach_files (attachments : list string) : M (list (string * string)) :=
  match attachments with
  | [] => ret []
  | p :: rest =>
      let! c := read_file p in
      let! more := attach_files rest in
      ret (match c with Some data => (p, data) :: more | None => more end)
  end.

Definition use_starttls (smtp_host smtp_port : string) : bool :=
  String.eqb smtp_port "587"
  || one_of ["smtp.office365.com"; "smtp-mail.outlook.com"] (lower smtp_host).

(** Returns the text of the exception when the session fails.  [cc],
    [bcc] and [reply_to] keep their default [None] in the only call. *)
Definition send_email (smtp_host smtp_port smtp_user smtp_pass sender recipient
                         subject body : string) (attachments : list string)
  : M (option string) :=
  let! atts := attach_files attachments in
  let msg := {| msg_from := sender; msg_to := recipient; msg_subject := subject;
                msg_body := body; msg_attachments := atts |} in
  let! _ := emit (EvSmtp smtp_host smtp_port smtp_user smtp_pass
                         (use_starttls smtp_host smtp_port) msg) in
  let! t := tick in
  ret (smtp_deliver E t smtp_host smtp_port smtp_user smtp_pass msg).

(** ** The run loop of [main] *)

Variable a : args.

Definition smtp_host : string := default "smtp.gmail.com" (getenv E "SMTP_HOST").
Definition smtp_port : string := default "465" (getenv E "SMTP_PORT").
Definition smtp_user : string := default (from_email a) (getenv E "SMTP_USER").
Definition smtp_pass : string := default EmptyString (getenv E "SMTP_PASS").

(** Lines 421-423: [str(row.get(name, "")).strip()] *)
Definition text_cell (cols : list string) (vals : list cell) (name : string) : string :=
  strip (py_str (row_get cols vals name EmptyString)).

(** Lines 427-434 *)
Definition opener_from_sheet (cols : list string) (vals : list cell) : string :=
  if has_column cols "First Line" then
    let raw_opener := row_get cols vals "First Line" EmptyString in
    if isna raw_opener then EmptyString else strip (py_str raw_opener)
  else EmptyString.

(** Line 436 *)
Definition row_status (cols : list string) (vals : list cell) : string :=
  if has_column cols "Status" then text_cell cols vals "Status" else EmptyString.

(** Lines 443-454: the opener, the helper phrase and the blurb. *)
Definition personalize (i : nat) (company website from_sheet : string)
  : M (string * string * string) :=
  if truthy from_sheet then
    let! _ := print ("[SHEET] Using opener from sheet for " +:+ company) in
    ret (from_sheet, extract_helper_phrase from_sheet, EmptyString)
  else
    let! _ := print (of_nat i +:+ ". Email has been created for " +:+ company
                     +:+ ". Need to review and then send") in
    let! blurb := fetch_site_blurb website in
    let! '(opener, helper_phrase) :=
      gpt_company_personalization company website blurb (role a) in
    ret (opener, helper_phrase, blurb).

(** Lines 456-459.  Both branches above bind [opener] to a string, so
    the test [opener is None] never holds. *)
Definition nan_safety (company blurb opener : string) : M string :=
  if String.eqb (lower opener) "nan" then
    let! _ := print ("[SAFETY] 'nan' opener for " +:+ company +:+ ", falling back.") in
    ret (fallback_opener company blurb (role a))
  else ret opener.

(** Lines 473-474 *)
Definition safe_company (company : string) : string :=
  take 60 (sub re_unsafe "_" company).

Definition preview_name (company email : string) : string :=
  safe_company company +:+ "__" +:+ email +:+ ".txt".

Definition preview_text (email subj body : string) : string :=
  "TO: " +:+ email +:+ NL +:+ "SUBJECT: " +:+ subj +:+ NL +:+ NL +:+ body.

(** Lines 472-494: preview or live send; returns [result].
    [time.sleep] sits inside the [try] and refuses a negative delay. *)
Definition deliver (company email subj body : string) : M string :=
  if dry_run a then
    let filename := path_join (outbox a) (preview_name company email) in
    let! _ := write_file filename (preview_text email subj body) in
    ret "PREVIEWED"
  else
    let! r := send_email smtp_host smtp_port smtp_user smtp_pass
                (from_name a +:+ " <" +:+ from_email a +:+ ">")
                email subj body
                (match resume a with
                 | Some p => if truthy p then [p] else []
                 | None => []
                 end) in
    match r with
    | None =>
        if (rate_sec a <? 0)%Z then ret "ERROR: sleep length must be non-negative"
        else
          let! _ := emit (EvSleep (rate_sec a)) in
          ret "SENT"
    | Some e => ret ("ERROR: " +:+ e)
    end.

(** The body of the [for] loop after the cap test (lines 421-505):
    [None] when the row is skipped by [continue], otherwise the record
    appended to [sent_log]. *)
Definition process_row (i : nat) (cols : list string) (vals : list cell)
  : M (option log_record) :=
  let company := text_cell cols vals "Company" in
  let email := text_cell cols vals "Email" in
  let website := text_cell cols vals "Website" in
  let greeting := EmptyString in
  let from_sheet := opener_from_sheet cols vals in
  let status := row_status cols vals in
  if negb (truthy company) || negb (truthy email) then ret None
  else if one_of ["sent"; "done"; "bounced"] (lower status) then ret None
  else
    let! '(opener, helper_phrase, blurb) := personalize i company website from_sheet in
    let! opener := nan_safety company blurb opener in
    let subj := subject_line company helper_phrase in
    let body := build_email_body company greeting opener website (from_name a) in
    let! t := tick in
    let timestamp := utcnow E t +:+ "Z" in
    let! result := deliver company email subj body in
    ret (Some {| timestamp := timestamp; company := company; email := email;
                 website := website; greeting := greeting; first_line := opener;
                 subject := subj; result := result |}).

(** Lines 417-506, with the loop state [processed] and [sent_log]. *)
Fixpoint run_loop (cols : list string) (rs : list (nat * list cell))
         (processed : Z) (sent_log : list log_record)
  : M (Z * list log_record) :=
  match rs with
  | [] => ret (processed, sent_log)
  | (i, vals) :: rest =>
      if (max a <=? processed)%Z then ret (processed, sent_log)
      else
        let! r := process_row i cols vals in
        match r with
        | None => run_loop cols rest processed sent_log
        | Some rec => run_loop cols rest (processed + 1)%Z (sent_log ++ [rec])
        end
  end.




End WithEnv.

End Run.

(* ================================================================== *)
(** * [load_leads] *)
(* ================================================================== *)

Module Loader.
Import PyStr Mailer Leads.

(** What a reader of pandas returns: a table, or, for [read_excel]
    without a sheet name, the sheets of the workbook by name. *)
Inductive loaded : Type :=
| Table (df : DataFrame)
| Sheets (sheets : list (string * DataFrame)).

(** The three readers the loader tries, as oracles: [inl] is the text of
    the exception a reader raises, [inr] what it returns. *)
Record readers : Type := {
  read_excel : string -> option string -> string + loaded;
  read_excel_calamine : string -> option string -> string + loaded;
  read_csv : string -> string + DataFrame
}.

(** How [load_leads] ends: with a value, with [SystemExit(msg)], or with
    the exception of [pd.read_csv], which it does not catch. *)
Inductive load_result : Type :=
| Loaded (v : loaded)
| Exit (msg : string)
| Raised (error : string).

(** [s.endswith(suffix)] *)
Fixpoint endswith (suffix s : string) : bool :=
  String.eqb suffix s ||
  match s with
  | EmptyString => false
  | String _ s' => endswith suffix s'
  end.

Definition load_failure (e1 e2 : string) : string :=
  "Failed to read the Excel file." +:+ NL
  +:+ "openpyxl error: " +:+ e1 +:+ NL
  +:+ "calamine error: " +:+ e2 +:+ NL
  +:+ "Fix by either: (1) pip install calamine, (2) upgrade openpyxl, "
  +:+ "(3) re-save the workbook, or (4) export to CSV and rerun with that file.".

Definition load_leads (R : readers) (path : string) (sheet : option string)
  : load_result :=
  match read_excel R path sheet with
  | inr v => Loaded v
  | inl e1 =>
      match read_excel_calamine R path sheet with
      | inr v => Loaded v
      | inl e2 =>
          if endswith ".csv" (lower path) then
            match read_csv R path with
            | inr df => Loaded (Table df)
            | inl e => Raised e
            end
          else Exit (load_failure e1 e2)
      end
  end.

End Loader.

(* ================================================================== *)
(** * Vocabulary of the statements *)
(* ================================================================== *)

Module Spec.
Import PyStr Re Mailer Leads World Run.

(** ** Text *)

(** A string without upper-case letters. *)
Definition no_upper (s : string) : Prop :=
  forall c, In c (chars s) -> is_upper c = false.

(** ** The order of the phrases *)

(** The order of the sort key. *)
Definition key_leq (x y : string) : Prop :=
  absdiff (count_words x) 3 < absdiff (count_words y) 3
  \/ (absdiff (count_words x) 3 = absdiff (count_words y) 3
      /\ String.length x <= String.length y).

(** The head of a list is least for the key. *)
Definition head_least (l : list string) : Prop :=
  match l with
  | [] => True
  | h :: t => forall c, In c t -> key_leq h c
  end.



(** ** Runs of a character class *)

(** [re.sub] with such a pattern replaces every maximal run of
    characters of the class by the replacement; [inrun] tells whether
    the previous character was in the class. *)
Fixpoint replace_runs (p : ascii -> bool) (repl : list ascii) (inrun : bool)
         (s : list ascii) : list ascii :=
  match s with
  | [] => []
  | c :: s' =>
      if p c then (if inrun then [] else repl) ++ replace_runs p repl true s'
      else c :: replace_runs p repl false s'
  end.

(** The length of the run of characters of the class [p] at the head
    of [l]. *)
Fixpoint run_length (p : ascii -> bool) (l : list ascii) : nat :=
  match l with
  | c :: l' => if p c then S (run_length p l') else 0
  | [] => 0
  end.

(** The first run of [l]: the number of characters before it and its
    length. *)
Fixpoint first_run (p : ascii -> bool) (l : list ascii) : option (nat * nat) :=
  match l with
  | [] => None
  | c :: l' =>
      if p c then Some (0, S (run_length p l'))
      else match first_run p l' with
           | Some (g, n) => Some (S g, n)
           | None => None
           end
  end.




(** ** Events *)

(** Progress messages, page requests and calls of the text-generation
    service: what personalisation may do. *)
Definition is_chatter (e : event) : Prop :=
  match e with
  | EvPrint _ | EvHttpGet _ | EvChat _ => True
  | _ => False
  end.

Definition is_print (e : event) : Prop :=
  match e with
  | EvPrint _ => True
  | _ => False
  end.



Definition is_sleep (e : event) : Prop :=
  match e with
  | EvSleep _ => True
  | _ => False
  end.

Definition is_delivery (e : event) : Prop :=
  match e with
  | EvWrite _ _ | EvSmtp _ _ _ _ _ _ | EvSleep _ => True
  | _ => False
  end.


Definition smtp_recipients (t : list event) : list string :=
  flat_map (fun e => match e with
                     | EvSmtp _ _ _ _ _ msg => [msg_to msg]
                     | _ => []
                     end) t.

(** ** Computations *)

(** [quiet P c]: [c] changes no file and adds to the trace only events
    that satisfy [P]. *)
Definition quiet {A : Type} (P : event -> Prop) (c : M A) : Prop :=
  forall w, fs (snd (c w)) = fs w
            /\ exists evs, trace (snd (c w)) = trace w ++ evs /\ Forall P evs.


(** ** Rows and runs *)

(** What the delivery of a row carries. *)
Definition carries (e : event) (email subj body : string) : Prop :=
  match e with
  | EvWrite _ content => content = preview_text email subj body
  | EvSmtp _ _ _ _ _ msg =>
      msg_to msg = email /\ msg_subject msg = subj /\ msg_body msg = body
  | _ => False
  end.

(** The body composed for a logged row. *)
Definition row_body (a : args) (rec : log_record) : string :=
  build_email_body (company rec) (greeting rec) (first_line rec) (website rec)
                   (from_name a).




(** ** More vocabulary: events, rows, layout of text *)

(** [only P c]: every effect of [c] satisfies [P]. *)
Definition only {A : Type} (P : event -> Prop) (c : M A) : Prop :=
  forall w, exists evs, trace (snd (c w)) = trace w ++ evs /\ Forall P evs.

Definition is_http_get (e : event) : Prop :=
  match e with
  | EvHttpGet _ => True
  | _ => False
  end.

Definition is_chat (e : event) : Prop :=
  match e with
  | EvChat _ => True
  | _ => False
  end.

Definition is_preview_write (e : event) : Prop :=
  match e with
  | EvWrite _ _ => True
  | _ => False
  end.



Definition is_chat_b (e : event) : bool :=
  match e with
  | EvChat _ => true
  | _ => false
  end.

(** The number of events of a kind in a trace. *)
Definition count_events (f : event -> bool) (t : list event) : nat :=
  length (List.filter f t).




(** No two neighbours in the class [p]. *)
Fixpoint no_adjacent (p : ascii -> bool) (l : list ascii) : Prop :=
  match l with
  | [] => True
  | c :: l' =>
      match l' with
      | [] => True
      | d :: _ => (p c = true -> p d = false) /\ no_adjacent p l'
      end
  end.

(** White space reduced to single spaces between other characters. *)
Definition collapsed (s : string) : Prop :=
  (forall c, In c (chars s) -> is_space c = true -> c = " "%char)
  /\ no_adjacent is_space (chars s).




(** The names [normalize_columns] gives to the columns it knows. *)
Definition canonical_columns : list string :=
  ["Company"; "Website"; "Email"; "Greeting"; "First Line"; "Status"].


Definition opener_block (opener : string) : string :=
  if truthy opener then "I'm fascinated by how " +:+ lower_first opener
  else "I'm fascinated by how your work fits into the broader finance and technology landscape.".


Definition is_get_b (e : event) : bool :=
  match e with
  | EvHttpGet _ => true
  | _ => false
  end.



(** Files written one after the other, a later one over an earlier one
    of the same path. *)
Definition write_all (files : list (string * string)) (m : gmap string string)
  : gmap string string :=
  fold_left (fun m f => <[fst f := snd f]> m) files m.








(** ** Reading the log back *)

(** A reader for what [csv_rows] writes, used to show that the log
    determines its records: a state machine over the characters, with the
    field and the row read so far. *)
Inductive csv_mode : Type := AtStart | InPlain | InQuoted | AfterQuote | AfterCR.

Definition snoc (s : string) (c : ascii) : string := s +:+ String c EmptyString.

Fixpoint csv_read (mode : csv_mode) (cur : string) (row : list string)
         (rows : list (list string)) (s : string) : list (list string) :=
  match s with
  | EmptyString => rows
  | String c s' =>
      match mode with
      | AfterCR => csv_read AtStart EmptyString [] rows s'
      | InQuoted =>
          if code c =? 34 then csv_read AfterQuote cur row rows s'
          else csv_read InQuoted (snoc cur c) row rows s'
      | AtStart | InPlain | AfterQuote =>
          if code c =? 44 then csv_read AtStart EmptyString (row ++ [cur]) rows s'
          else if code c =? 13
               then csv_read AfterCR EmptyString [] (rows ++ [row ++ [cur]]) s'
          else if code c =? 34 then
            match mode with
            | AtStart => csv_read InQuoted cur row rows s'
            | AfterQuote => csv_read InQuoted (snoc cur c) row rows s'
            | _ => csv_read InPlain (snoc cur c) row rows s'
            end
          else csv_read InPlain (snoc cur c) row rows s'
      end
  end.


(** What the reader does at the end of a field. *)
Definition after_field (t : ascii) (f : string) (row : list string)
           (rows : list (list string)) (rest : string) : list (list string) :=
  if code t =? 44 then csv_read AtStart EmptyString (row ++ [f]) rows rest
  else csv_read AfterCR EmptyString [] (rows ++ [row ++ [f]]) rest.

End Spec.

(* ================================================================== *)
(** * Concrete runs *)
(* ================================================================== *)

Module Scenario.
Import PyStr Mailer Leads World Run.

(** No credential for the text-generation service, no network, an SMTP
    relay that accepts everything. *)
Definition offline : env :=
  {| getenv := fun name => if String.eqb name "SMTP_PASS" then Some "secret" else None;
     openai_client := false;
     cwd := "/home/user";
     urljoin := fun base ref => base +:+ ref;
     http_get := fun _ _ => None;
     chat_create := fun _ _ => inl "unreachable";
     smtp_deliver := fun _ _ _ _ _ _ => None;
     utcnow := fun _ => "2025-01-01T09:00:00" |}.

(** A text-generation service that answers with the opener "nan". *)
Definition nan_service : env :=
  {| getenv := fun name =>
                 if String.eqb name "OPENAI_API_KEY" then Some "sk-test" else None;
     openai_client := true;
     cwd := "/home/user";
     urljoin := fun base ref => base +:+ ref;
     http_get := fun _ _ => None;
     chat_create := fun _ _ => inr ("OPENER: nan" +:+ NL +:+ "PHRASE: Deal Flow.");
     smtp_deliver := fun _ _ _ _ _ _ => None;
     utcnow := fun _ => "2025-01-01T09:00:00" |}.

Definition preview_args : args :=
  {| from_name := "Hissan Omar"; from_email := "hissanomar786@hotmail.com";
     role := "AI/Software Engineer Intern"; resume := None;
     rate_sec := 20; max := 50; dry_run := true; outbox := "outbox_preview" |}.

Definition live_args : args :=
  {| from_name := "Hissan Omar"; from_email := "hissanomar786@hotmail.com";
     role := "AI/Software Engineer Intern"; resume := None;
     rate_sec := 20; max := 50; dry_run := false; outbox := "outbox_preview" |}.

Definition empty_world : world := {| fs := ∅; trace := [] |}.

Definition lead_columns : list string :=
  ["Company"; "Website"; "Email"; "First Line"; "Status"].

(** The row of the specification's example. *)
Definition acme : list cell :=
  [Str "Acme Capital"; Str "acme.com"; Str "a@acme.com"; NaN; NaN].

(** A row with an empty Website cell. *)
Definition acme_no_site : list cell :=
  [Str "Acme & Co."; NaN; Str "a@acme.com"; NaN; NaN].

(** A row with a first-line override. *)
Definition acme_override : list cell :=
  [Str "Acme Capital"; Str "acme.com"; Str "a@acme.com";
   Str "We admire your work in credit risk"; NaN].

(** A row whose first-line override reads NAN. *)
Definition acme_nan_override : list cell :=
  [Str "Acme Capital"; Str "acme.com"; Str "a@acme.com"; Str "NAN"; NaN].

(** A row with an empty Company cell. *)
Definition no_company : list cell :=
  [NaN; Str "acme.com"; Str "a@acme.com"; NaN; NaN].

(** A row with an empty Email cell. *)
Definition no_email : list cell :=
  [Str "Acme Capital"; Str "acme.com"; NaN; NaN; NaN].

(** Readers for a path that only the CSV reader understands. *)
Definition csv_only : Loader.readers :=
  {| Loader.read_excel := fun _ _ => inl "File is not a zip file";
     Loader.read_excel_calamine := fun _ _ => inl "No module named 'python_calamine'";
     Loader.read_csv := fun _ => inr {| columns := lead_columns; rows := [acme] |} |}.



(** A record whose company holds a comma. *)
Definition comma_record : log_record :=
  {| timestamp := "2025-01-01T09:00:00Z"; company := "Acme, Inc.";
     email := "a@acme.com"; website := "acme.com"; greeting := EmptyString;
     first_line := "I have been looking into Acme, Inc.";
     subject := "Msci AI student willing to help Acme, Inc. with deal sourcing";
     result := "PREVIEWED" |}.

End Scenario.

(* ================================================================== *)
(** * Properties of the string helpers *)
(* ================================================================== *)

Module PyStrFacts.
Import PyStr Spec.

Lemma lower_ascii_not_upper (c : ascii) : is_upper (lower_ascii c) = false.
Proof. destruct c as [[] [] [] [] [] [] [] []]; reflexivity. Qed.

Lemma lower_no_upper (s : string) : no_upper (lower s).
Proof.
  unfold no_upper. induction s as [|a s IH]; simpl; intros c Hc.
  - contradiction.
  - destruct Hc as [<- | Hc]; [apply lower_ascii_not_upper | now apply IH].
Qed.

Lemma lower_ascii_fixed (c : ascii) : is_upper c = false -> lower_ascii c = c.
Proof. unfold lower_ascii. now intros ->. Qed.

Lemma lower_idem (s : string) : lower (lower s) = lower s.
Proof.
  induction s as [|a s IH]; simpl; [reflexivity|].
  now rewrite IH, (lower_ascii_fixed _ (lower_ascii_not_upper a)).
Qed.

Lemma length_lower (s : string) : String.length (lower s) = String.length s.
Proof. induction s; simpl; congruence. Qed.

(** ** [strip] *)

Lemma lstrip_by_head (p : ascii -> bool) (s : string) :
  match lstrip_by p s with
  | EmptyString => True
  | String c _ => p c = false
  end.
Proof.
  induction s as [|a s IH]; simpl; [exact I|].
  destruct (p a) eqn:Ha; [exact IH | exact Ha].
Qed.

Lemma lstrip_by_fixed (p : ascii -> bool) (s : string) :
  match s with EmptyString => True | String c _ => p c = false end ->
  lstrip_by p s = s.
Proof. destruct s as [|a s]; simpl; [reflexivity | now intros ->]. Qed.

Lemma rstrip_by_idem (p : ascii -> bool) (s : string) :
  rstrip_by p (rstrip_by p s) = rstrip_by p s.
Proof.
  induction s as [|a s IH]; simpl; [reflexivity|].
  destruct (rstrip_by p s) as [|b t] eqn:Hr.
  - destruct (p a) eqn:Ha; simpl; [reflexivity | now rewrite Ha].
  - simpl in *. now rewrite IH.
Qed.

Lemma rstrip_by_head (p : ascii -> bool) (s : string) :
  match s with EmptyString => True | String c _ => p c = false end ->
  match rstrip_by p s with EmptyString => True | String c _ => p c = false end.
Proof.
  destruct s as [|a s]; simpl; [trivial|]. intros Ha.
  destruct (rstrip_by p s); [now rewrite Ha | exact Ha].
Qed.



Lemma length_chars (s : string) : length (chars s) = String.length s.
Proof. induction s; simpl; congruence. Qed.

Lemma length_of_chars (l : list ascii) : String.length (of_chars l) = length l.
Proof. induction l; simpl; congruence. Qed.

Lemma chars_of_chars (l : list ascii) : chars (of_chars l) = l.
Proof. apply list_ascii_of_string_of_list_ascii. Qed.

Lemma of_chars_chars (s : string) : of_chars (chars s) = s.
Proof. apply string_of_list_ascii_of_string. Qed.

Lemma truthy_false (s : string) : truthy s = false <-> s = EmptyString.
Proof. destruct s; simpl; split; congruence. Qed.

Lemma truthy_true (s : string) : truthy s = true <-> s <> EmptyString.
Proof. destruct s; simpl; split; congruence. Qed.

Lemma append_nil (b : string) : EmptyString +:+ b = b.
Proof. reflexivity. Qed.

Lemma append_cons (x : ascii) (a b : string) : String x a +:+ b = String x (a +:+ b).
Proof. reflexivity. Qed.

Lemma append_assoc (a b c : string) : (a +:+ b) +:+ c = a +:+ (b +:+ c).
Proof.
  induction a as [|x a IH]; [reflexivity|].
  now rewrite !append_cons, IH.
Qed.

Lemma length_append (a b : string) :
  String.length (a +:+ b) = String.length a + String.length b.
Proof.
  induction a as [|x a IH]; [reflexivity|].
  rewrite append_cons. simpl. now rewrite IH.
Qed.

End PyStrFacts.

(* ================================================================== *)
(** * Properties of the Phrase Extractor *)
(* ================================================================== *)

Module PhraseFacts.
Import PyStr Re Mailer Spec PyStrFacts.

Lemma key_le_spec (x y : string) :
  key_le (sort_key x) (sort_key y) = true <-> key_leq x y.
Proof.
  unfold key_le, key_leq, sort_key; simpl.
  rewrite orb_true_iff, andb_true_iff, Nat.ltb_lt, Nat.eqb_eq, Nat.leb_le.
  tauto.
Qed.

Lemma key_leq_refl (x : string) : key_leq x x.
Proof. unfold key_leq. lia. Qed.

Lemma key_leq_trans (x y z : string) : key_leq x y -> key_leq y z -> key_leq x z.
Proof. unfold key_leq. lia. Qed.

Lemma key_leq_total (x y : string) : key_leq x y \/ key_leq y x.
Proof. unfold key_leq. lia. Qed.

Lemma key_le_false (x y : string) :
  key_le (sort_key x) (sort_key y) = false -> key_leq y x.
Proof.
  intros H. destruct (key_leq_total x y) as [Hxy | Hyx]; [|exact Hyx].
  apply key_le_spec in Hxy. congruence.
Qed.

(** ** The sort is a stable insertion sort: permutation and order *)

Lemma insert_sorted_In (x y : string) (l : list string) :
  In y (insert_sorted x l) <-> y = x \/ In y l.
Proof.
  induction l as [|z l IH]; simpl.
  - intuition congruence.
  - destruct (key_le (sort_key x) (sort_key z)); simpl; rewrite ?IH; intuition congruence.
Qed.

Lemma sort_phrases_In (y : string) (l : list string) :
  In y (sort_phrases l) <-> In y l.
Proof.
  induction l as [|x l IH]; simpl; [tauto|].
  rewrite insert_sorted_In, IH. intuition congruence.
Qed.

Lemma insert_sorted_head_least (x : string) (l : list string) :
  head_least l -> head_least (insert_sorted x l).
Proof.
  destruct l as [|z l]; simpl; [tauto|]. intros Hz.
  destruct (key_le (sort_key x) (sort_key z)) eqn:Hk; simpl.
  - apply key_le_spec in Hk. intros c [<- | Hc]; [exact Hk|].
    eapply key_leq_trans; [exact Hk | now apply Hz].
  - apply key_le_false in Hk. intros c Hc.
    apply insert_sorted_In in Hc as [-> | Hc]; [exact Hk | now apply Hz].
Qed.

Lemma sort_phrases_head_least (l : list string) : head_least (sort_phrases l).
Proof.
  induction l as [|x l IH]; simpl; [exact I|].
  now apply insert_sorted_head_least.
Qed.

(** [select] returns a least element of a non-empty list. *)
Lemma select_least (l : list string) :
  l <> [] ->
  In (select l) l /\ forall c, In c l -> key_leq (select l) c.
Proof.
  intros Hne. unfold select.
  pose proof (sort_phrases_head_least l) as Hh.
  pose proof (sort_phrases_In) as HI.
  destruct (sort_phrases l) as [|h t] eqn:Hs.
  - destruct l as [|x l]; [congruence|].
    exfalso. specialize (HI x (x :: l)). rewrite Hs in HI. simpl in HI. tauto.
  - split.
    + apply (HI h l). rewrite Hs. now left.
    + intros c Hc. apply (HI c l) in Hc. rewrite Hs in Hc.
      destruct Hc as [<- | Hc]; [apply key_leq_refl | now apply Hh].
Qed.

Lemma select_nil : select [] = default_phrase.
Proof. reflexivity. Qed.

(** ** The cleaned candidates *)

Lemma len_ok_spec (s : string) :
  len_ok s = true <-> 3 <= String.length s <= 40.
Proof. unfold len_ok. rewrite andb_true_iff, !Nat.leb_le. tauto. Qed.

Lemma clean_In (c : string) (cands : list string) :
  In c (clean cands) <->
  (exists c0, In c0 cands /\ c = normalize c0) /\ 3 <= String.length c <= 40.
Proof.
  unfold clean. rewrite List.filter_In, List.in_map_iff, len_ok_spec.
  split; intros [[c0 H] Hl]; (split; [exists c0|]); intuition congruence.
Qed.

Lemma clean_app (l1 l2 : list string) : clean (l1 ++ l2) = clean l1 ++ clean l2.
Proof. unfold clean. now rewrite List.map_app, List.filter_app. Qed.

Lemma clean_keywords : clean keywords = keywords.
Proof. vm_compute. reflexivity. Qed.

Lemma keywords_count : length keywords = 12.
Proof. reflexivity. Qed.

(** The keywords are always among the candidates, and survive the
    cleaning: [cleaned] is never empty. *)
Lemma clean_candidates_keywords (text : string) :
  exists found, clean (candidates text) = found ++ keywords.
Proof.
  unfold candidates. rewrite !clean_app, clean_keywords, app_assoc. eauto.
Qed.

Lemma clean_candidates_nonempty (text : string) : clean (candidates text) <> [].
Proof.
  destruct (clean_candidates_keywords text) as [found ->].
  destruct found; discriminate.
Qed.

End PhraseFacts.

(* ================================================================== *)
(** * The matcher on patterns of the form [[class]+] *)
(* ================================================================== *)

Module ReFacts.
Import PyStr Re Spec.

Lemma m_rep {A : Type} (s : list ascii) (g : bool) (lo : nat) (hi : option nat)
      (r : regex) (i : nat) (caps : captures) (k : nat -> captures -> option A) :
  m s (Rep g lo hi r) i caps k
  = rep_loop (m s r) g lo hi k (S (length s)) 0 i caps.
Proof. reflexivity. Qed.

Section Runs.
Variable p : ascii -> bool.

Lemma run_length_le (l : list ascii) : run_length p l <= length l.
Proof. induction l as [|c l IH]; simpl; [lia|]. destruct (p c); lia. Qed.

Lemma nth_error_mid (pre : list ascii) (c : ascii) (suf : list ascii) :
  nth_error (pre ++ c :: suf) (length pre) = Some c.
Proof. induction pre; simpl; auto. Qed.

Lemma nth_error_end (pre : list ascii) :
  nth_error (pre ++ []) (length pre) = None.
Proof. induction pre; simpl; auto. Qed.

Lemma rep_chr_greedy {A : Type} (F : nat -> captures -> A) (caps : captures)
      (lo : nat) (suf : list ascii) :
  forall (pre : list ascii) (fuel count : nat),
    length suf < fuel ->
    rep_loop (m (pre ++ suf) (Chr p)) true lo None
             (fun j c => Some (F j c)) fuel count (length pre) caps
    = if lo <=? count + run_length p suf
      then Some (F (length pre + run_length p suf) caps) else None.
Proof.
  induction suf as [|c suf IH]; intros pre fuel count Hf;
    (destruct fuel as [|fuel]; [simpl in Hf; lia|]); cbn [rep_loop below m].
  - rewrite nth_error_end. simpl. now rewrite !Nat.add_0_r.
  - rewrite nth_error_mid. destruct (p c) eqn:Hc.
    + rewrite (proj2 (Nat.eqb_neq (S (length pre)) (length pre))) by lia.
      pose proof (IH (pre ++ [c]) fuel (S count)) as IH'.
      rewrite <- app_assoc, length_app in IH'. simpl in IH'.
      rewrite Nat.add_1_r in IH'. rewrite IH' by (simpl in Hf; lia).
      cbn [run_length]. rewrite Hc.
      replace (count + S (run_length p suf)) with (S (count + run_length p suf)) by lia.
      replace (length pre + S (run_length p suf))
        with (S (length pre + run_length p suf)) by lia.
      cbn [Nat.add].
      destruct (lo <=? S (count + run_length p suf)) eqn:Hlo; [reflexivity|].
      apply Nat.leb_gt in Hlo.
      now rewrite (proj2 (Nat.leb_gt lo count)) by lia.
    + cbn [run_length]. rewrite Hc, !Nat.add_0_r. reflexivity.
Qed.

(** A match of [[class]+] at an offset: the whole run, if not empty. *)
Lemma match_at_plus (pre suf : list ascii) :
  match_at (plus (Chr p)) (pre ++ suf) (length pre)
  = match run_length p suf with
    | 0 => None
    | S n => Some {| m_start := length pre; m_end := length pre + S n; m_caps := [] |}
    end.
Proof.
  unfold match_at, plus. rewrite m_rep.
  rewrite (rep_chr_greedy
             (fun j c => {| m_start := length pre; m_end := j; m_caps := c |}))
    by (rewrite length_app; lia).
  simpl. destruct (run_length p suf); reflexivity.
Qed.

Local Abbreviation class_plus := (plus (Chr p)).

Lemma search_upto_plus (suf : list ascii) :
  forall pre : list ascii,
    search_upto (length suf) class_plus (pre ++ suf) (length pre)
    = match first_run p suf with
      | Some (g, n) =>
          Some {| m_start := length pre + g; m_end := length pre + g + n;
                  m_caps := [] |}
      | None => None
      end.
Proof.
  induction suf as [|c suf IH]; intros pre; cbn [search_upto length].
  - rewrite match_at_plus. reflexivity.
  - rewrite match_at_plus. cbn [run_length first_run].
    destruct (p c) eqn:Hc.
    + now rewrite !Nat.add_0_r.
    + pose proof (IH (pre ++ [c])) as IH'.
      rewrite <- app_assoc, length_app in IH'. simpl in IH'.
      rewrite Nat.add_1_r in IH'. rewrite IH'.
      destruct (first_run p suf) as [[g n]|]; [|reflexivity].
      do 2 f_equal; lia.
Qed.

Lemma search_from_plus (pre suf : list ascii) :
  search_from class_plus (pre ++ suf) (length pre)
  = match first_run p suf with
    | Some (g, n) =>
        Some {| m_start := length pre + g; m_end := length pre + g + n;
                m_caps := [] |}
    | None => None
    end.
Proof.
  unfold search_from. rewrite length_app.
  rewrite (proj2 (Nat.ltb_ge _ _)) by lia.
  replace (length pre + length suf - length pre) with (length suf) by lia.
  apply search_upto_plus.
Qed.

Variable repl : list ascii.

Lemma replace_runs_no_run (l : list ascii) :
  first_run p l = None -> replace_runs p repl false l = l.
Proof.
  induction l as [|c l IH]; cbn [first_run replace_runs]; [reflexivity|].
  destruct (p c); [discriminate|].
  destruct (first_run p l) as [[g n]|]; [discriminate|].
  intros _. now rewrite IH.
Qed.

Lemma replace_runs_in_run (l : list ascii) :
  replace_runs p repl true l = replace_runs p repl true (skipn (run_length p l) l).
Proof.
  induction l as [|c l IH]; cbn [run_length]; [reflexivity|].
  destruct (p c) eqn:Hc; [|reflexivity].
  cbn [skipn replace_runs]. rewrite Hc. exact IH.
Qed.

Lemma replace_runs_after_run (l : list ascii) :
  run_length p l = 0 -> replace_runs p repl true l = replace_runs p repl false l.
Proof.
  destruct l as [|c l]; cbn [run_length replace_runs]; [reflexivity|].
  destruct (p c); [discriminate | reflexivity].
Qed.

Lemma run_length_skipn (l : list ascii) : run_length p (skipn (run_length p l) l) = 0.
Proof.
  induction l as [|c l IH]; cbn [run_length]; [reflexivity|].
  destruct (p c) eqn:Hc; cbn [skipn run_length]; [exact IH | now rewrite Hc].
Qed.

(** The text up to the end of the first run, rewritten. *)
Lemma replace_runs_first_run (l : list ascii) (g n : nat) :
  first_run p l = Some (g, n) ->
  replace_runs p repl false l
  = firstn g l ++ repl ++ replace_runs p repl false (skipn (g + n) l).
Proof.
  revert g n. induction l as [|c l IH]; intros g n; cbn [first_run]; [discriminate|].
  destruct (p c) eqn:Hc.
  - intros [= <- <-]. cbn [replace_runs firstn Nat.add skipn app]. rewrite Hc.
    rewrite replace_runs_in_run, replace_runs_after_run by apply run_length_skipn.
    reflexivity.
  - destruct (first_run p l) as [[g' n']|] eqn:Hf; [|discriminate].
    intros [= <- <-]. cbn [replace_runs firstn Nat.add skipn app]. rewrite Hc.
    now rewrite (IH g' n').
Qed.

Lemma first_run_bounds (l : list ascii) (g n : nat) :
  first_run p l = Some (g, n) -> 0 < n /\ g + n <= length l.
Proof.
  revert g n. induction l as [|c l IH]; intros g n; cbn [first_run]; [discriminate|].
  destruct (p c).
  - intros [= <- <-]. pose proof (run_length_le l). simpl. lia.
  - destruct (first_run p l) as [[g' n']|]; [|discriminate].
    intros [= <- <-]. destruct (IH g' n' eq_refl). simpl. lia.
Qed.

Lemma slice_app (pre suf : list ascii) (g : nat) :
  slice (pre ++ suf) (length pre) (length pre + g) = firstn g suf.
Proof.
  unfold slice. rewrite skipn_app, skipn_all, Nat.sub_diag. simpl.
  f_equal. lia.
Qed.

(** [re.sub] with [[class]+] rewrites the runs. *)
Lemma sub_go_plus (n : nat) :
  forall (suf pre : list ascii) (fuel : nat),
    length suf <= n -> length suf < fuel ->
    sub_go repl (pre ++ suf) (length pre)
           (finditer_from fuel class_plus (pre ++ suf) (length pre))
    = replace_runs p repl false suf.
Proof.
  induction n as [|n IH]; intros suf pre fuel Hn Hf;
    (destruct fuel as [|fuel]; [lia|]);
    cbn [finditer_from]; rewrite search_from_plus.
  - destruct suf; [|simpl in Hn; lia]. simpl.
    rewrite skipn_app, skipn_all, Nat.sub_diag. reflexivity.
  - destruct (first_run p suf) as [[g k]|] eqn:Hfr.
    + destruct (first_run_bounds _ _ _ Hfr) as [Hk Hgk].
      cbn [sub_go m_start m_end].
      rewrite (proj2 (Nat.eqb_neq (length pre + g + k) (length pre + g))) by lia.
      rewrite slice_app, (replace_runs_first_run _ _ _ Hfr).
      do 2 f_equal.
      rewrite <- (firstn_skipn (g + k) suf) at 1 2.
      rewrite app_assoc.
      replace (length pre + g + k) with (length (pre ++ firstn (g + k) suf))
        by (rewrite length_app, length_firstn; lia).
      apply IH; rewrite length_skipn; lia.
    + cbn [sub_go]. rewrite skipn_app, skipn_all, Nat.sub_diag.
      now rewrite replace_runs_no_run.
Qed.

End Runs.

(** [re.sub(r"[class]+", repl, s)] *)
Theorem sub_plus_class (p : ascii -> bool) (repl s : string) :
  sub (plus (Chr p)) repl s
  = of_chars (replace_runs p (chars repl) false (chars s)).
Proof.
  unfold sub, finditer. f_equal.
  apply (sub_go_plus p (chars repl) (length (chars s)) (chars s) []).
  - lia.
  - rewrite PyStrFacts.length_chars. lia.
Qed.

End ReFacts.

(* ================================================================== *)
(** * Effects of the run loop *)
(* ================================================================== *)

Module RunFacts.
Import PyStr Re Mailer Leads World Run Spec PyStrFacts.

(** ** Classes of events *)

Lemma is_print_chatter (e : event) : is_print e -> is_chatter e.
Proof. destruct e; simpl; tauto. Qed.



(** ** Computations that leave the files alone *)

Lemma quiet_ret {A : Type} (P : event -> Prop) (x : A) : quiet P (ret x).
Proof. intros w. split; [reflexivity|]. exists []. now rewrite app_nil_r. Qed.

Lemma quiet_bind {A B : Type} (P : event -> Prop) (c : M A) (k : A -> M B) :
  quiet P c -> (forall x, quiet P (k x)) -> quiet P (bind c k).
Proof.
  intros Hc Hk w. unfold bind.
  destruct (Hc w) as [Hfs [evs [Ht HP]]].
  destruct (c w) as [x w1]. simpl in *.
  destruct (Hk x w1) as [Hfs' [evs' [Ht' HP']]].
  split; [congruence|].
  exists (evs ++ evs'). rewrite Ht', Ht, app_assoc.
  split; [reflexivity | now apply Forall_app].
Qed.

Lemma quiet_emit (P : event -> Prop) (e : event) : P e -> quiet P (emit e).
Proof. intros He w. split; [reflexivity|]. exists [e]. auto. Qed.

Lemma quiet_print (P : event -> Prop) (line : string) :
  P (EvPrint line) -> quiet P (print line).
Proof. apply quiet_emit. Qed.

Lemma quiet_tick (P : event -> Prop) : quiet P tick.
Proof. intros w. split; [reflexivity|]. exists []. now rewrite app_nil_r. Qed.

Lemma quiet_read_file (P : event -> Prop) (path : string) : quiet P (read_file path).
Proof. intros w. split; [reflexivity|]. exists []. now rewrite app_nil_r. Qed.

Lemma quiet_weaken {A : Type} (P Q : event -> Prop) (c : M A) :
  (forall e, P e -> Q e) -> quiet P c -> quiet Q c.
Proof.
  intros HPQ Hc w. destruct (Hc w) as [Hfs [evs [Ht HP]]].
  split; [exact Hfs|]. exists evs. split; [exact Ht|].
  eapply Forall_impl; eauto.
Qed.

Ltac quiet_leaf :=
  first [ apply quiet_ret | apply quiet_tick | apply quiet_read_file
        | apply quiet_print; exact I | apply quiet_emit; exact I ].

Ltac quiet_step := apply quiet_bind; [try quiet_leaf | intros ?].

Section WithEnv.
Variable E : env.
Variable a : args.

Lemma quiet_fetch_loop (us texts : list string) :
  quiet is_chatter (fetch_loop E us texts).
Proof.
  revert texts. induction us as [|u us IH]; intros texts; cbn [fetch_loop].
  - apply quiet_ret.
  - do 2 quiet_step.
    destruct (http_get E _ u) as [r|]; [|apply IH].
    destruct (negb _ || negb _); [apply IH|].
    destruct (truthy _); [apply quiet_ret | apply IH].
Qed.

(** The loop over the candidate pages requests the first one. *)
Lemma fetch_loop_first (u : string) (us texts : list string) (w : world) :
  exists rest,
    trace (snd (fetch_loop E (u :: us) texts w)) = trace w ++ EvHttpGet u :: rest.
Proof.
  cbn [fetch_loop].
  unfold bind at 1. unfold emit at 1.
  match goal with
  | |- context [bind tick ?k ?w0] =>
      assert (Hq : quiet is_chatter (bind tick k)); [|destruct (Hq w0) as [_ [evs [Ht _]]]]
  end.
  - quiet_step.
    destruct (http_get E _ u) as [r|]; [|apply quiet_fetch_loop].
    destruct (negb _ || negb _); [apply quiet_fetch_loop|].
    destruct (truthy _); [apply quiet_ret | apply quiet_fetch_loop].
  - exists evs. rewrite Ht. cbn [trace]. now rewrite <- app_assoc.
Qed.

Lemma quiet_fetch_site_blurb (url : string) :
  quiet is_chatter (fetch_site_blurb E url).
Proof.
  unfold fetch_site_blurb. destruct (negb (truthy url)).
  - apply quiet_ret.
  - apply quiet_fetch_loop.
Qed.

Lemma quiet_gpt (company website blurb your_role : string) :
  quiet is_chatter (gpt_company_personalization E company website blurb your_role).
Proof.
  unfold gpt_company_personalization.
  destruct (_ || _).
  - quiet_step. quiet_leaf.
  - do 3 quiet_step.
    destruct (chat_create E _ _); [quiet_step|]; quiet_leaf.
Qed.

Lemma quiet_personalize (i : nat) (company website from_sheet : string) :
  quiet is_chatter (personalize E a i company website from_sheet).
Proof.
  unfold personalize. destruct (truthy from_sheet).
  - quiet_step. quiet_leaf.
  - quiet_step. quiet_step; [apply quiet_fetch_site_blurb|].
    quiet_step; [apply quiet_gpt|].
    match goal with p : (string * string)%type |- _ => destruct p end.
    quiet_leaf.
Qed.

Lemma quiet_nan_safety (company blurb opener : string) :
  quiet is_print (nan_safety a company blurb opener).
Proof.
  unfold nan_safety. destruct (String.eqb _ _); [quiet_step|]; quiet_leaf.
Qed.

(** ** One row, step by step *)

(** The stages a processed row went through. *)
Lemma process_row_inv (i : nat) (cols : list string) (vals : list cell)
      (w w' : world) (rec : log_record) :
  process_row E a i cols vals w = (Some rec, w') ->
  let company := text_cell cols vals "Company" in
  let email := text_cell cols vals "Email" in
  let website := text_cell cols vals "Website" in
  truthy company = true /\ truthy email = true
  /\ one_of ["sent"; "done"; "bounced"] (lower (row_status cols vals)) = false
  /\ exists opener0 helper blurb w1 opener w2 res,
      personalize E a i company website (opener_from_sheet cols vals) w
      = ((opener0, helper, blurb), w1)
      /\ nan_safety a company blurb opener0 w1 = (opener, w2)
      /\ deliver E a company email (subject_line company helper)
                 (build_email_body company EmptyString opener website (from_name a)) w2
         = (res, w')
      /\ rec = {| timestamp := utcnow E (length (trace w2)) +:+ "Z";
                  company := company; email := email; website := website;
                  greeting := EmptyString; first_line := opener;
                  subject := subject_line company helper; result := res |}.
Proof.
  unfold process_row. intros H. cbv zeta.
  destruct (truthy (text_cell cols vals "Company")) eqn:Hc;
    cbn [negb orb] in H; [|discriminate].
  destruct (truthy (text_cell cols vals "Email")) eqn:He;
    cbn [negb orb] in H; [|discriminate].
  destruct (one_of _ (lower (row_status cols vals))) eqn:Hs; [discriminate|].
  unfold bind in H.
  destruct (personalize E a i _ _ _ w) as [[[opener0 helper] blurb] w1] eqn:HP.
  destruct (nan_safety a _ blurb opener0 w1) as [opener w2] eqn:HN.
  unfold tick in H.
  destruct (deliver E a _ _ _ _ w2) as [res w3] eqn:HD.
  unfold ret in H. injection H as <- <-.
  repeat split; try reflexivity.
  exists opener0, helper, blurb, w1, opener, w2, res. auto.
Qed.

Lemma attach_files_pure (l : list string) (w : world) :
  snd (attach_files l w) = w.
Proof.
  revert w. induction l as [|p l IH]; intros w; cbn [attach_files]; [reflexivity|].
  unfold bind, read_file, ret. specialize (IH w).
  destruct (attach_files l w) as [more w1]. simpl in *. exact IH.
Qed.

(** The preview branch of [deliver]. *)
Lemma deliver_dry_run (company email subj body : string) (w : world) :
  dry_run a = true ->
  let path := path_join (outbox a) (preview_name company email) in
  let content := preview_text email subj body in
  deliver E a company email subj body w
  = ("PREVIEWED", {| fs := <[path := content]> (fs w);
                     trace := trace w ++ [EvWrite path content] |}).
Proof. intros Hd. unfold deliver. rewrite Hd. reflexivity. Qed.

Lemma send_email_run (host port user pass sender recipient subj body : string)
      (attachments : list string) (w : world) :
  exists atts,
    let msg := {| msg_from := sender; msg_to := recipient; msg_subject := subj;
                  msg_body := body; msg_attachments := atts |} in
    let ev := EvSmtp host port user pass (use_starttls host port) msg in
    send_email E host port user pass sender recipient subj body attachments w
    = (smtp_deliver E (length (trace w ++ [ev])) host port user pass msg,
       {| fs := fs w; trace := trace w ++ [ev] |}).
Proof.
  unfold send_email, bind.
  pose proof (attach_files_pure attachments w) as Hp.
  destruct (attach_files attachments w) as [atts w1]. simpl in Hp. subst w1.
  exists atts. reflexivity.
Qed.

(** The live branch of [deliver]: one SMTP session, then at most a
    pause. *)
Lemma deliver_live (company email subj body : string) (w : world) :
  dry_run a = false ->
  exists host port user pass tls msg post res,
    deliver E a company email subj body w
    = (res, {| fs := fs w;
               trace := trace w ++ EvSmtp host port user pass tls msg :: post |})
    /\ msg_to msg = email /\ msg_subject msg = subj /\ msg_body msg = body
    /\ Forall is_sleep post.
Proof.
  intros Hd. unfold deliver. rewrite Hd. unfold bind at 1.
  match goal with
  | |- context [send_email E ?h ?p ?u ?pw ?sd ?rc ?sj ?bd ?at' w] =>
      destruct (send_email_run h p u pw sd rc sj bd at' w) as [atts Hs];
      cbv zeta in Hs; rewrite Hs; clear Hs
  end.
  match goal with
  | |- context [smtp_deliver E ?t ?h ?p ?u ?pw ?mg] =>
      exists h, p, u, pw, (use_starttls h p), mg;
      destruct (smtp_deliver E t h p u pw mg) as [err|]
  end.
  - exists [], ("ERROR: " +:+ err). unfold ret. repeat split; auto.
  - destruct (rate_sec a <? 0)%Z.
    + exists [], "ERROR: sleep length must be non-negative".
      unfold ret. repeat split; auto.
    + exists [EvSleep (rate_sec a)], "SENT". unfold bind, emit, ret. simpl.
      rewrite <- app_assoc. repeat split; auto.
      constructor; [exact I | constructor].
Qed.

(** Every processed row is delivered exactly once, after the chatter
    of personalisation, with the subject and opener that are logged. *)
Lemma process_row_delivery (i : nat) (cols : list string) (vals : list cell)
      (w w' : world) (rec : log_record) :
  process_row E a i cols vals w = (Some rec, w') ->
  exists pre e post,
    trace w' = trace w ++ pre ++ e :: post
    /\ Forall is_chatter pre
    /\ carries e (email rec) (subject rec) (row_body a rec)
    /\ Forall is_sleep post.
Proof.
  intros H. apply process_row_inv in H. cbv zeta in H.
  destruct H as (_ & _ & _ & o0 & h & b & w1 & o & w2 & res & HP & HN & HD & ->).
  pose proof (quiet_personalize i (text_cell cols vals "Company")
                (text_cell cols vals "Website") (opener_from_sheet cols vals) w)
    as [_ [ev1 [Ht1 Hc1]]].
  rewrite HP in Ht1. simpl in Ht1.
  pose proof (quiet_nan_safety (text_cell cols vals "Company") b o0 w1)
    as [_ [ev2 [Ht2 Hc2]]].
  rewrite HN in Ht2. simpl in Ht2.
  unfold row_body. simpl.
  destruct (dry_run a) eqn:Hd.
  - rewrite deliver_dry_run in HD by exact Hd. injection HD as <- <-.
    eexists (ev1 ++ ev2), _, []. simpl. rewrite Ht2, Ht1, <- !app_assoc.
    repeat split; auto.
    apply Forall_app. split; [exact Hc1|].
    eapply List.Forall_impl; [apply is_print_chatter | exact Hc2].
  - match type of HD with
    | deliver E a ?c ?e ?sj ?bd w2 = _ =>
        pose proof (deliver_live c e sj bd w2 Hd) as Hlive
    end.
    destruct Hlive
      as (host & port & user & pass & tls & msg & post & res' & Ht & Hm & Hpost).
    rewrite HD in Ht. injection Ht as -> ->.
    exists (ev1 ++ ev2), (EvSmtp host port user pass tls msg), post.
    simpl. rewrite Ht2, Ht1, <- !app_assoc. repeat split; try tauto.
    apply Forall_app. split; [exact Hc1|].
    eapply List.Forall_impl; [apply is_print_chatter | exact Hc2].
Qed.

End WithEnv.

End RunFacts.

(* ================================================================== *)
(** * The Phrase Extractor: default, selection, bounds *)
(* ================================================================== *)

Module PhraseClaims.
Import PyStr Re Mailer Spec PyStrFacts PhraseFacts ReFacts.


(** C6.  On the empty text the extractor returns "analytics support";
    and whatever the candidates, when none of them has 3 to 40 characters
    once normalised, lines 189-199 return "analytics support". *)
Theorem extract_default :
  extract_helper_phrase EmptyString = "analytics support"
  /\ forall cands : list string,
      (forall c, In c cands -> len_ok (normalize c) = false) ->
      select (clean cands) = "analytics support".
Proof.
  split; [reflexivity|].
  intros cands H.
  assert (clean cands = []) as ->; [|reflexivity].
  unfold clean. induction cands as [|c cands IH]; [reflexivity|].
  cbn [map List.filter]. rewrite (H c) by now left.
  apply IH. intros c' Hc'. apply H. now right.
Qed.

Lemma extract_default_witness :
  extract_helper_phrase EmptyString = "analytics support"
  /\ select (clean ["ab"; " x "; "    "]) = "analytics support".
Proof.
  split; [exact (proj1 extract_default)|].
  apply (proj2 extract_default).
  intros c [<- | [<- | [<- | []]]]; vm_compute; reflexivity.
Defined.




(** C9.  For every text the phrase returned has between 3 and 40
    characters, hence is not empty: the keywords are always among the
    candidates and survive the cleaning, so [cleaned] is never empty and
    the final [return] is not reached. *)
Theorem extract_length_bounds (text : string) :
  3 <= String.length (extract_helper_phrase text) <= 40
  /\ extract_helper_phrase text <> EmptyString
  /\ (exists found, candidates text = found ++ keywords)
  /\ (exists found, clean (candidates text) = found ++ keywords)
  /\ clean (candidates text) <> [].
Proof.
  assert (Hlen : 3 <= String.length (extract_helper_phrase text) <= 40).
  { unfold extract_helper_phrase. destruct (truthy text); cbn [negb].
    - destruct (select_least _ (clean_candidates_nonempty text)) as [Hin _].
      apply clean_In in Hin. tauto.
    - vm_compute. lia. }
  split; [exact Hlen|]. split.
  - intros Heq. rewrite Heq in Hlen. simpl in Hlen. lia.
  - split; [|split].
    + unfold candidates. rewrite app_assoc. eauto.
    + apply clean_candidates_keywords.
    + apply clean_candidates_nonempty.
Qed.

End PhraseClaims.

(* ================================================================== *)
(** * The rows that are processed *)
(* ================================================================== *)

Module RowClaims.
Import PyStr Re Mailer Leads World Run Spec PyStrFacts ReFacts RunFacts Scenario.

(** ** Auxiliary facts *)

Lemma lower_nan_fixed (o : string) : o = "nan" -> lower o = "nan".
Proof. now intros ->. Qed.

Lemma fallback_opener_not_nan (company blurb your_role : string) :
  fallback_opener company blurb your_role <> "nan".
Proof.
  unfold fallback_opener. destruct (truthy blurb);
    rewrite append_cons; discriminate.
Qed.

(** What the safety check of lines 456-459 does. *)
Lemma nan_safety_run (a : args) (company blurb opener : string) (w : world) :
  nan_safety a company blurb opener w
  = (if String.eqb (lower opener) "nan"
     then fallback_opener company blurb (role a) else opener,
     {| fs := fs w;
        trace := trace w ++
                 (if String.eqb (lower opener) "nan"
                  then [EvPrint ("[SAFETY] 'nan' opener for " +:+ company
                                 +:+ ", falling back.")]
                  else []) |}).
Proof.
  unfold nan_safety. destruct (String.eqb (lower opener) "nan").
  - reflexivity.
  - unfold ret. rewrite app_nil_r. now destruct w.
Qed.

Lemma nan_safety_not_nan (a : args) (company blurb opener : string) (w : world) :
  fst (nan_safety a company blurb opener w) <> "nan".
Proof.
  rewrite nan_safety_run. cbn [fst].
  destruct (String.eqb (lower opener) "nan") eqn:Hn.
  - apply fallback_opener_not_nan.
  - intros ->. discriminate Hn.
Qed.

(** The branch of lines 445-448. *)
Lemma personalize_from_sheet (E : env) (a : args) (i : nat)
      (company website from_sheet : string) (w : world) :
  from_sheet <> EmptyString ->
  personalize E a i company website from_sheet w
  = ((from_sheet, extract_helper_phrase from_sheet, EmptyString),
     {| fs := fs w;
        trace := trace w ++ [EvPrint ("[SHEET] Using opener from sheet for "
                                      +:+ company)] |}).
Proof.
  intros Hne. unfold personalize.
  now rewrite (proj2 (truthy_true from_sheet) Hne).
Qed.

(** The branch of lines 449-454 starts with the fetch of the blurb. *)
Lemma fetch_site_blurb_requests (E : env) (url : string) (w : world) :
  url <> EmptyString ->
  startswith "http://" url || startswith "https://" url = false ->
  exists rest,
    trace (snd (fetch_site_blurb E url w))
    = trace w ++ EvHttpGet ("http://" +:+ url) :: rest.
Proof.
  intros Hne Hs. unfold fetch_site_blurb.
  rewrite (proj2 (truthy_true url) Hne), Hs. cbn [negb].
  apply fetch_loop_first.
Qed.

(** The signature block ends with the website line. *)
Lemma body_ends_with_website (company greeting opener website your_name : string) :
  website <> EmptyString ->
  exists head,
    build_email_body company greeting opener website your_name
    = head +:+ "Website noted: " +:+ website +:+ NL.
Proof.
  intros Hne. unfold build_email_body, signature_block.
  rewrite (proj2 (truthy_true website) Hne).
  eexists. rewrite <- !append_assoc. reflexivity.
Qed.

(** ** The sanitised company of the preview file name *)






(** ** Subject line *)



(** ** The opener *)

(** C3.  For every processed row the opener that is logged, and from
    which the delivered body is composed, is not "nan": an opener that
    reads "nan" in any letter case is replaced by the fallback opener,
    any other opener is kept. *)
Theorem logged_opener_never_nan (E : env) (a : args) (i : nat)
        (cols : list string) (vals : list cell) (w w' : world) (rec : log_record) :
  process_row E a i cols vals w = (Some rec, w') ->
  let company := text_cell cols vals "Company" in
  let website := text_cell cols vals "Website" in
  let generated :=
    fst (personalize E a i company website (opener_from_sheet cols vals) w) in
  let opener := fst (fst generated) in
  let blurb := snd generated in
  first_line rec <> "nan"
  /\ (lower opener = "nan" -> first_line rec = fallback_opener company blurb (role a))
  /\ (lower opener <> "nan" -> first_line rec = opener)
  /\ exists pre e post,
      trace w' = trace w ++ pre ++ e :: post
      /\ Forall is_chatter pre
      /\ carries e (email rec) (subject rec)
                 (build_email_body company EmptyString (first_line rec) website
                                   (from_name a))
      /\ Forall is_sleep post.
Proof.
  intros H. pose proof (process_row_delivery E a _ _ _ _ _ _ H) as Hdel.
  apply process_row_inv in H. cbv zeta in H |- *.
  destruct H as (_ & _ & _ & o0 & h & b & w1 & o & w2 & res & HP & HN & _ & ->).
  rewrite HP. cbn [fst snd first_line].
  unfold row_body in Hdel. cbn [company greeting first_line website email subject] in Hdel.
  pose proof (nan_safety_not_nan a (text_cell cols vals "Company") b o0 w1) as Hnn.
  rewrite HN in Hnn. cbn [fst] in Hnn.
  rewrite nan_safety_run in HN. injection HN as Ho _.
  split; [exact Hnn|]. split; [|split].
  - intros Hl. rewrite Hl in Ho. now rewrite <- Ho.
  - intros Hl. apply String.eqb_neq in Hl. rewrite Hl in Ho. now rewrite <- Ho.
  - exact Hdel.
Qed.

Lemma logged_opener_never_nan_witness :
  exists rec w',
    process_row nan_service preview_args 0 lead_columns acme empty_world = (Some rec, w')
    /\ first_line rec <> "nan".
Proof.
  eexists. eexists. split; [vm_compute; reflexivity|].
  exact (proj1 (logged_opener_never_nan nan_service preview_args 0 lead_columns acme
                  empty_world _ _ eq_refl)).
Defined.

(** ** Preview mode *)




(** ** The first-line override *)

(** C5, as stated, fails: an override that reads "nan" in some letter
    case is not the opener of the email; the shared safety check puts
    the fallback opener in its place. *)
Lemma sheet_opener_nan_is_replaced :
  opener_from_sheet lead_columns acme_nan_override = "NAN"
  /\ exists rec w',
      process_row offline preview_args 0 lead_columns acme_nan_override empty_world
      = (Some rec, w')
      /\ first_line rec <> opener_from_sheet lead_columns acme_nan_override.
Proof.
  split; [reflexivity|].
  eexists. eexists. split; [vm_compute; reflexivity|].
  vm_compute. discriminate.
Qed.

(** C5, amended.  For a processed row whose First Line cell holds text
    other than white space, no page is requested and the
    personalisation function does not run: all the row does is print
    the [SHEET] line, possibly the [SAFETY] line, and deliver.  The
    helper phrase of the subject is extracted from the override, and
    the override is the opener unless it reads "nan" in some letter
    case, in which case the fallback opener for an empty blurb is. *)
Theorem sheet_opener_skips_generation (E : env) (a : args) (i : nat)
        (cols : list string) (vals : list cell) (w w' : world) (rec : log_record) :
  let override := opener_from_sheet cols vals in
  override <> EmptyString ->
  process_row E a i cols vals w = (Some rec, w') ->
  (exists delivery,
      trace w'
      = trace w
        ++ [EvPrint ("[SHEET] Using opener from sheet for " +:+ company rec)]
        ++ (if String.eqb (lower override) "nan"
            then [EvPrint ("[SAFETY] 'nan' opener for " +:+ company rec
                           +:+ ", falling back.")]
            else [])
        ++ delivery
      /\ Forall is_delivery delivery)
  /\ subject rec = subject_line (company rec) (extract_helper_phrase override)
  /\ (lower override <> "nan" -> first_line rec = override)
  /\ (lower override = "nan"
      -> first_line rec = fallback_opener (company rec) EmptyString (role a)).
Proof.
  cbv zeta. intros Hov H. apply process_row_inv in H. cbv zeta in H.
  destruct H as (_ & _ & _ & o0 & h & b & w1 & o & w2 & res & HP & HN & HD & ->).
  cbn [company subject first_line].
  rewrite personalize_from_sheet in HP by exact Hov.
  injection HP as <- <- <- <-.
  rewrite nan_safety_run in HN. injection HN as <- <-.
  split; [|split; [reflexivity|split]].
  - destruct (dry_run a) eqn:Hd.
    + rewrite deliver_dry_run in HD by exact Hd. injection HD as <- <-.
      eexists [_]. cbn [trace]. rewrite <- !app_assoc.
      split; [reflexivity|]. repeat constructor.
    + match type of HD with
      | deliver E a ?c ?e ?sj ?bd ?w0 = _ =>
          pose proof (deliver_live E a c e sj bd w0 Hd) as Hlive
      end.
      destruct Hlive
        as (host & port & user & pass & tls & msg & post & res' & Ht & _ & _ & _ & Hp).
      rewrite HD in Ht. injection Ht as -> ->.
      exists (EvSmtp host port user pass tls msg :: post).
      cbn [trace]. rewrite <- !app_assoc. split; [reflexivity|].
      constructor; [exact I|].
      eapply List.Forall_impl; [|exact Hp]. intros e; destruct e; simpl; tauto.
  - intros Hl. apply String.eqb_neq in Hl. now rewrite Hl.
  - intros Hl. now rewrite Hl.
Qed.

Lemma sheet_opener_skips_generation_witness :
  exists rec w',
    process_row offline preview_args 0 lead_columns acme_override empty_world
    = (Some rec, w')
    /\ subject rec
       = subject_line (company rec)
                      (extract_helper_phrase "We admire your work in credit risk").
Proof.
  eexists. eexists. split; [vm_compute; reflexivity|].
  refine (proj1 (proj2
            (sheet_opener_skips_generation offline preview_args 0 lead_columns
               acme_override empty_world _ _ _ eq_refl))).
  discriminate.
Defined.

(** ** Empty Website cells *)

(** C10.  Only the First Line cell is tested for NaN.  An empty
    Website cell becomes the text "nan": it is logged as such, the body
    delivered ends with the line "Website noted: nan", and a row without
    override starts its fetch by requesting [http://nan]. *)
Theorem nan_website_is_text (E : env) (a : args) (i : nat)
        (cols : list string) (vals : list cell) (w w' : world) (rec : log_record) :
  row_lookup cols vals "Website" = Some NaN ->
  process_row E a i cols vals w = (Some rec, w') ->
  website rec = "nan"
  /\ (exists pre e post head,
        trace w' = trace w ++ pre ++ e :: post
        /\ Forall is_chatter pre /\ Forall is_sleep post
        /\ carries e (email rec) (subject rec)
                   (head +:+ "Website noted: nan" +:+ NL))
  /\ (opener_from_sheet cols vals = EmptyString ->
      exists line rest,
        trace w' = trace w ++ EvPrint line :: EvHttpGet "http://nan" :: rest)
  /\ (row_lookup cols vals "First Line" = Some NaN ->
      opener_from_sheet cols vals = EmptyString)
  /\ (forall name, row_lookup cols vals name = Some NaN ->
                   text_cell cols vals name = "nan").
Proof.
  intros Hw H.
  assert (Htc : forall name, row_lookup cols vals name = Some NaN ->
                             text_cell cols vals name = "nan").
  { intros name Hn. unfold text_cell, row_get. now rewrite Hn. }
  pose proof (Htc _ Hw) as Hweb.
  pose proof (process_row_delivery E a _ _ _ _ _ _ H) as Hdel.
  apply process_row_inv in H. cbv zeta in H.
  destruct H as (_ & _ & _ & o0 & h & b & w1 & o & w2 & res & HP & HN & HD & ->).
  cbn [website email subject]. rewrite Hweb in *.
  split; [reflexivity|]. split; [|split; [|split; [|exact Htc]]].
  - destruct Hdel as (pre & e & post & Ht & Hpre & Hc & Hpost).
    unfold row_body in Hc. cbn [company greeting first_line website email subject] in Hc.
    destruct (body_ends_with_website (text_cell cols vals "Company") EmptyString o
                "nan" (from_name a)) as [head Hb]; [discriminate|].
    rewrite Hb in Hc. exists pre, e, post, head. auto.
  - intros Hov. rewrite Hov in HP. unfold personalize in HP. cbn [truthy] in HP.
    unfold bind at 1 in HP. unfold print, emit at 1 in HP.
    unfold bind at 1 in HP.
    lazymatch type of HP with
    | context [fetch_site_blurb E ?u ?w0] =>
        pose proof (fetch_site_blurb_requests E u w0 ltac:(discriminate) eq_refl)
          as [r1 Hr1];
        destruct (fetch_site_blurb E u w0) as [blurb wf]
    end.
    cbn [snd trace] in Hr1. unfold bind at 1 in HP.
    match type of HP with
    | context [gpt_company_personalization E ?c ?ws ?bl ?rl wf] =>
        pose proof (quiet_gpt E c ws bl rl wf) as [_ [ev2 [Ht2 _]]];
        destruct (gpt_company_personalization E c ws bl rl wf) as [[o' h'] wg]
    end.
    cbn [snd] in Ht2. unfold ret in HP. injection HP as -> -> -> ->.
    pose proof (quiet_nan_safety a (text_cell cols vals "Company") b o0 w1)
      as [_ [ev3 [Ht3 _]]].
    rewrite HN in Ht3. cbn [snd] in Ht3.
    destruct Hdel as (pre & e & post & Ht & _).
    assert (Hd : exists ev4, trace w' = trace w2 ++ ev4).
    { destruct (dry_run a) eqn:Hd.
      - rewrite deliver_dry_run in HD by exact Hd. injection HD as _ <-.
        eexists. reflexivity.
      - match type of HD with
        | deliver E a ?c ?e ?sj ?bd ?w0 = _ =>
            pose proof (deliver_live E a c e sj bd w0 Hd) as Hlive
        end.
        destruct Hlive as (? & ? & ? & ? & ? & ? & ? & ? & Hl & _).
        rewrite HD in Hl. injection Hl as _ ->. eexists. reflexivity. }
    destruct Hd as [ev4 Ht4].
    eexists _, (r1 ++ ev2 ++ ev3 ++ ev4).
    rewrite Ht4, Ht3, Ht2, Hr1, <- !app_assoc. reflexivity.
  - intros Hfl. unfold opener_from_sheet, row_get. rewrite Hfl.
    now destruct (has_column cols "First Line").
Qed.

Lemma nan_website_is_text_witness :
  exists rec w',
    process_row offline preview_args 0 lead_columns acme_no_site empty_world
    = (Some rec, w')
    /\ website rec = "nan".
Proof.
  eexists. eexists. split; [vm_compute; reflexivity|].
  exact (proj1 (nan_website_is_text offline preview_args 0 lead_columns acme_no_site
                  empty_world _ _ eq_refl eq_refl)).
Defined.

End RowClaims.

(* ================================================================== *)
(** * The run loop and the send log *)
(* ================================================================== *)

Module LogClaims.
Import PyStr Re Mailer Leads World Run Spec PyStrFacts RunFacts Scenario.

(** ** Rows that are skipped *)

Lemma skip_blank_row (E : env) (a : args) (i : nat) (cols : list string)
      (vals : list cell) (w : world) :
  text_cell cols vals "Company" = EmptyString
  \/ text_cell cols vals "Email" = EmptyString ->
  process_row E a i cols vals w = (None, w).
Proof.
  intros H. unfold process_row.
  destruct H as [-> | ->]; cbn [truthy negb orb]; [reflexivity|].
  now rewrite orb_true_r.
Qed.

Lemma skip_terminal_status (E : env) (a : args) (i : nat) (cols : list string)
      (vals : list cell) (w : world) :
  one_of ["sent"; "done"; "bounced"] (lower (row_status cols vals)) = true ->
  process_row E a i cols vals w = (None, w).
Proof.
  intros H. unfold process_row. rewrite H.
  now destruct (negb _ || negb _).
Qed.


Lemma run_loop_skips (E : env) (a : args) (cols : list string) (i : nat)
      (vals : list cell) (rest : list (nat * list cell)) (processed : Z)
      (sent_log : list log_record) (w : world) :
  process_row E a i cols vals w = (None, w) ->
  run_loop E a cols ((i, vals) :: rest) processed sent_log w
  = run_loop E a cols rest processed sent_log w.
Proof.
  intros H. cbn [run_loop].
  destruct (max a <=? processed)%Z eqn:Hm.
  - destruct rest as [|[j v] rest]; cbn [run_loop]; [reflexivity|].
    now rewrite Hm.
  - unfold bind. now rewrite H.
Qed.

(** ** Rows with an empty Company or Email cell *)

(** C1 at rows with an empty cell: such a row is not skipped.  The
    cell reads "nan", the row is counted and logged, and in a live run
    a message goes out, addressed to "nan" when the Email cell is the
    empty one. *)
Theorem missing_cells_are_processed :
  exists r1 r2 w',
    run_loop offline live_args lead_columns
             (iterrows {| columns := lead_columns; rows := [no_company; no_email] |})
             0%Z [] empty_world
    = ((2%Z, [r1; r2]), w')
    /\ company r1 = "nan" /\ email r1 = "a@acme.com" /\ result r1 = "SENT"
    /\ company r2 = "Acme Capital" /\ email r2 = "nan" /\ result r2 = "SENT"
    /\ smtp_recipients (trace w') = ["a@acme.com"; "nan"].
Proof.
  do 3 eexists. split; [vm_compute; reflexivity|].
  repeat split; vm_compute; reflexivity.
Qed.

(** ** The send log *)








Section WithEnv.
Variable E : env.
Variable a : args.






End WithEnv.



End LogClaims.

(* ================================================================== *)
(** * More on the Phrase Extractor *)
(* ================================================================== *)

Module PhraseExtras.
Import PyStr Re Mailer Spec PyStrFacts PhraseFacts ReFacts.

(** ** The sort is a stable sort *)







(** ** Which of several best candidates is returned *)








(** ** The phrase is lower-case and trimmed *)

Lemma replace_runs_In (p : ascii -> bool) (repl : list ascii) (b : bool)
      (l : list ascii) (c : ascii) :
  In c (replace_runs p repl b l) -> In c repl \/ (In c l /\ p c = false).
Proof.
  revert b. induction l as [|x l IH]; intros b; cbn [replace_runs]; [intros []|].
  destruct (p x) eqn:Hx.
  - rewrite in_app_iff. intros [H | H].
    + destruct b; [destruct H | now left].
    + destruct (IH _ H) as [? | [? ?]]; [now left | right; split; [now right | assumption]].
  - intros [<- | H]; [right; split; [now left | assumption]|].
    destruct (IH _ H) as [? | [? ?]]; [now left | right; split; [now right | assumption]].
Qed.

Lemma lstrip_by_In (p : ascii -> bool) (s : string) (c : ascii) :
  In c (chars (lstrip_by p s)) -> In c (chars s).
Proof.
  induction s as [|x s IH]; cbn [lstrip_by]; [tauto|].
  destruct (p x); [intros H; right; now apply IH | tauto].
Qed.

Lemma rstrip_by_In (p : ascii -> bool) (s : string) (c : ascii) :
  In c (chars (rstrip_by p s)) -> In c (chars s).
Proof.
  induction s as [|x s IH]; cbn [rstrip_by]; [tauto|].
  destruct (rstrip_by p s) as [|y t].
  - destruct (p x); simpl; [tauto | intros [-> | []]; now left].
  - intros [-> | H]; [now left | right; now apply IH].
Qed.

Lemma strip_In (s : string) (c : ascii) : In c (chars (strip s)) -> In c (chars s).
Proof.
  unfold strip, strip_by. intros H. now apply rstrip_by_In, lstrip_by_In in H.
Qed.

Lemma normalize_no_upper (c : string) : no_upper c -> no_upper (normalize c).
Proof.
  intros Hc x Hx. unfold normalize, re_spaces, ws in Hx.
  rewrite sub_plus_class, chars_of_chars in Hx.
  apply replace_runs_In in Hx as [[<- | []] | [Hx _]]; [reflexivity|].
  apply Hc. now apply strip_In.
Qed.

Lemma prep_phrase_no_upper (txt : string) (mt : rmatch) : no_upper (prep_phrase txt mt).
Proof.
  intros x Hx. unfold prep_phrase, re_not_lower_phrase in Hx.
  rewrite sub_plus_class, chars_of_chars in Hx.
  apply replace_runs_In in Hx as [[] | [Hx _]].
  now apply (lower_no_upper (strip (group txt mt 2)) x).
Qed.

Lemma candidates_no_upper (text c : string) : In c (candidates text) -> no_upper c.
Proof.
  unfold candidates, prep_candidates, caps_candidates.
  rewrite !in_app_iff, List.filter_In, !List.in_map_iff.
  intros [[[mt [<- _]] _] | [[c0 [<- _]] | Hk]].
  - apply prep_phrase_no_upper.
  - apply lower_no_upper.
  - intros x Hx. vm_compute in Hk.
    repeat (destruct Hk as [<- | Hk];
            [vm_compute in Hx;
             repeat (destruct Hx as [<- | Hx]; [reflexivity|]); destruct Hx|]).
    destruct Hk.
Qed.

Lemma lower_fixed (s : string) : no_upper s -> lower s = s.
Proof.
  induction s as [|x s IH]; intros H; cbn [lower]; [reflexivity|].
  rewrite lower_ascii_fixed by (apply H; now left).
  rewrite IH; [reflexivity|]. intros c Hc. apply H. now right.
Qed.

(** The phrase returned comes from the cleaned candidates, or is the
    default. *)
Lemma extract_cases (text : string) :
  (text = EmptyString /\ extract_helper_phrase text = default_phrase)
  \/ (text <> EmptyString
      /\ exists c0, In c0 (candidates text)
                    /\ extract_helper_phrase text = normalize c0
                    /\ 3 <= String.length (normalize c0) <= 40).
Proof.
  destruct text as [|x text]; [left; split; reflexivity|]. right.
  split; [discriminate|].
  unfold extract_helper_phrase. cbn [truthy negb].
  destruct (select_least _ (clean_candidates_nonempty (String x text))) as [Hin _].
  apply clean_In in Hin as [[c0 [Hc0 Heq]] Hlen].
  exists c0. rewrite <- Heq. auto.
Qed.

Section Trim.
Variable p : ascii -> bool.
Variable u : ascii.

Local Abbreviation rr b t := (of_chars (replace_runs p [u] b (chars t))).

Lemma rr_cons (b : bool) (c : ascii) (t : string) :
  rr b (String c t)
  = if p c then (if b then rr true t else String u (rr true t))
    else String c (rr false t).
Proof.
  cbn [chars list_ascii_of_string replace_runs].
  destruct (p c); [destruct b|]; reflexivity.
Qed.

Lemma rstrip_by_keep (a : ascii) (y : string) :
  rstrip_by p y = y -> y <> EmptyString -> rstrip_by p (String a y) = String a y.
Proof.
  intros Hy Hne. cbn [rstrip_by]. rewrite Hy.
  destruct y; [contradiction | reflexivity].
Qed.

Lemma rr_rstrip (t : string) :
  rstrip_by p t = t ->
  forall b, rstrip_by p (rr b t) = rr b t /\ (t <> EmptyString -> rr b t <> EmptyString).
Proof.
  induction t as [|c t IH]; intros Ht b; [split; [reflexivity | congruence]|].
  cbn [rstrip_by] in Ht.
  destruct (rstrip_by p t) as [|y r] eqn:Hr.
  - destruct (p c) eqn:Hc; [discriminate|]. injection Ht as <-.
    rewrite rr_cons, Hc. split; [|discriminate].
    cbn. now rewrite Hc.
  - injection Ht as Ht. specialize (IH Ht).
    assert (Hne : t <> EmptyString) by (rewrite <- Ht; discriminate).
    rewrite rr_cons. destruct (p c).
    + destruct b.
      * destruct (IH true) as [H1 H2]. split; [exact H1 | intros _; now apply H2].
      * destruct (IH true) as [H1 H2]. split; [|discriminate].
        apply rstrip_by_keep; [exact H1 | now apply H2].
    + destruct (IH false) as [H1 H2]. split; [|discriminate].
      apply rstrip_by_keep; [exact H1 | now apply H2].
Qed.

Lemma rr_head (t : string) :
  match t with EmptyString => True | String c _ => p c = false end ->
  match rr false t with EmptyString => True | String c _ => p c = false end.
Proof.
  destruct t as [|c t]; [trivial|]. intros Hc. now rewrite rr_cons, Hc.
Qed.

Lemma rr_strip_fixed (s : string) :
  strip_by p (rr false (strip_by p s)) = rr false (strip_by p s).
Proof.
  unfold strip_by at 1.
  rewrite lstrip_by_fixed.
  - apply rr_rstrip. unfold strip_by. apply rstrip_by_idem.
  - apply rr_head. unfold strip_by. apply rstrip_by_head, lstrip_by_head.
Qed.

Lemma replace_runs_no_adjacent (l : list ascii) :
  forall b,
    no_adjacent p (replace_runs p [u] b l)
    /\ (b = true -> match replace_runs p [u] b l with
                    | [] => True
                    | d :: _ => p d = false
                    end).
Proof.
  induction l as [|x l IH]; intros b; cbn [replace_runs]; [split; simpl; auto|].
  destruct (p x) eqn:Hx.
  - destruct (IH true) as [Hn Hh]. specialize (Hh eq_refl). destruct b.
    + cbn [app]. split; [exact Hn | intros _; exact Hh].
    + cbn [app no_adjacent]. split; [|discriminate].
      destruct (replace_runs p [u] true l); [exact I|]. split; [now intros _ | exact Hn].
  - destruct (IH false) as [Hn _]. cbn [no_adjacent]. split; [|now intros _].
    destruct (replace_runs p [u] false l); [exact I|].
    split; [intros H; congruence | exact Hn].
Qed.

End Trim.

Lemma normalize_strip_fixed (c : string) : strip (normalize c) = normalize c.
Proof.
  unfold normalize, re_spaces, ws. rewrite sub_plus_class.
  apply (rr_strip_fixed is_space " "%char c).
Qed.

Lemma normalize_collapsed (c : string) : collapsed (normalize c).
Proof.
  unfold normalize, re_spaces, ws. rewrite sub_plus_class. unfold collapsed.
  rewrite chars_of_chars. split.
  - intros x Hx Hs. apply replace_runs_In in Hx as [[<- | []] | [_ Hx]]; [reflexivity|].
    congruence.
  - apply replace_runs_no_adjacent.
Qed.

Lemma extract_trimmed (text : string) :
  no_upper (extract_helper_phrase text)
  /\ strip (extract_helper_phrase text) = extract_helper_phrase text
  /\ collapsed (extract_helper_phrase text).
Proof.
  destruct (extract_cases text) as [[_ ->] | [_ (c0 & Hin & -> & _)]].
  - split; [|split].
    + intros x Hx. vm_compute in Hx.
      repeat (destruct Hx as [<- | Hx]; [reflexivity|]). destruct Hx.
    + reflexivity.
    + change default_phrase with (normalize default_phrase).
      apply normalize_collapsed.
  - split; [|split].
    + apply normalize_no_upper. eapply candidates_no_upper; eauto.
    + apply normalize_strip_fixed.
    + apply normalize_collapsed.
Qed.

(** X3.  The phrase returned by the extractor has no upper-case letter, no
    white space at either end and only single spaces inside, so that
    [subject_line] puts it in the subject as it is. *)
Theorem extract_phrase_shape (text company : string) :
  no_upper (extract_helper_phrase text)
  /\ strip (extract_helper_phrase text) = extract_helper_phrase text
  /\ collapsed (extract_helper_phrase text)
  /\ subject_line company (extract_helper_phrase text)
     = "Msci AI student willing to help " +:+ strip company +:+ " with "
       +:+ extract_helper_phrase text.
Proof.
  destruct (extract_trimmed text) as (Hu & Hs & Hc).
  repeat split; try assumption; try apply Hc.
  unfold subject_line. now rewrite Hs, (lower_fixed _ Hu).
Qed.

End PhraseExtras.

(* ================================================================== *)
(** * The loader and the column names *)
(* ================================================================== *)

Module LeadsExtras.
Import PyStr Mailer Leads Loader Spec PyStrFacts Scenario.

(** X4.  [load_leads] returns what the first Excel reader that succeeds
    returns; it exits exactly when both fail on a path that does not end
    in [.csv] in any letter case, quoting both errors; otherwise it hands
    the path to the CSV reader, whose exception it lets through. *)
Theorem load_leads_outcome (R : readers) (path : string) (sheet : option string) :
  (forall v, read_excel R path sheet = inr v -> load_leads R path sheet = Loaded v)
  /\ (forall msg,
        load_leads R path sheet = Exit msg <->
        exists e1 e2,
          read_excel R path sheet = inl e1
          /\ read_excel_calamine R path sheet = inl e2
          /\ endswith ".csv" (lower path) = false
          /\ msg = load_failure e1 e2)
  /\ (forall e1 e2,
        read_excel R path sheet = inl e1 ->
        read_excel_calamine R path sheet = inl e2 ->
        endswith ".csv" (lower path) = true ->
        load_leads R path sheet
        = match read_csv R path with
          | inr df => Loaded (Table df)
          | inl e => Raised e
          end).
Proof.
  unfold load_leads. split; [|split].
  - now intros v ->.
  - intros msg. split.
    + destruct (read_excel R path sheet) as [e1|v]; [|discriminate].
      destruct (read_excel_calamine R path sheet) as [e2|v]; [|discriminate].
      destruct (endswith ".csv" (lower path)).
      * destruct (read_csv R path); discriminate.
      * intros [= <-]. exists e1, e2. auto.
    + intros (e1 & e2 & -> & -> & -> & ->). reflexivity.
  - now intros e1 e2 -> -> ->.
Qed.

Lemma load_leads_outcome_witness :
  load_leads csv_only "London_Finance_Firms.CSV" None
  = Loaded (Table {| columns := lead_columns; rows := [acme] |}).
Proof.
  exact (proj2 (proj2 (load_leads_outcome csv_only "London_Finance_Firms.CSV" None))
           _ _ eq_refl eq_refl eq_refl).
Defined.

Lemma normalize_column_cases (c : string) :
  In (normalize_column c) canonical_columns \/ normalize_column c = c.
Proof.
  unfold normalize_column, canonical_columns.
  repeat (match goal with
          | |- context [if ?b then _ else _] => destruct b
          end; [left; simpl; tauto|]).
  now right.
Qed.

Lemma normalize_column_idem (c : string) :
  normalize_column (normalize_column c) = normalize_column c.
Proof.
  unfold normalize_column at 2 3.
  destruct (one_of _ (lower (strip c))) eqn:H1; [reflexivity|].
  destruct (one_of ["website"; "site"; "url"; "homepage"] (lower (strip c))) eqn:H2;
    [reflexivity|].
  destruct (one_of ["email"; "e-mail"; "contact"] (lower (strip c))) eqn:H3;
    [reflexivity|].
  destruct (one_of ["greeting"; "salutation"] (lower (strip c))) eqn:H4; [reflexivity|].
  destruct (one_of ["first line"; "first_line"; "opener"; "custom line"]
                   (lower (strip c))) eqn:H5; [reflexivity|].
  destruct (one_of ["status"] (lower (strip c))) eqn:H6; [reflexivity|].
  unfold normalize_column. now rewrite H1, H2, H3, H4, H5, H6.
Qed.

(** Two names that differ only in letter case and surrounding white
    space are renamed alike, unless they are left as they are. *)
Lemma normalize_column_alias (c d : string) :
  lower (strip c) = lower (strip d) ->
  normalize_column c = normalize_column d
  \/ (normalize_column c = c /\ normalize_column d = d).
Proof.
  intros H. unfold normalize_column. rewrite H.
  repeat (match goal with
          | |- context [if ?b then _ else _] => destruct b
          end; [now left|]).
  now right.
Qed.

(** X5.  [normalize_columns] keeps the rows and the number of columns, gives
    every column one of the six canonical names or leaves its name alone,
    treats alike names that differ in letter case and outer white space,
    and changes nothing when applied again. *)
Theorem normalize_columns_canonical (df : DataFrame) :
  rows (normalize_columns df) = rows df
  /\ length (columns (normalize_columns df)) = length (columns df)
  /\ Forall2 (fun old new => In new canonical_columns \/ new = old)
             (columns df) (columns (normalize_columns df))
  /\ (forall c d, lower (strip c) = lower (strip d) ->
                  normalize_column c = normalize_column d
                  \/ (normalize_column c = c /\ normalize_column d = d))
  /\ normalize_columns (normalize_columns df) = normalize_columns df.
Proof.
  destruct df as [cols rws]. unfold normalize_columns. cbn [columns rows].
  split; [reflexivity|]. split; [apply length_map|]. split; [|split].
  - induction cols as [|c cols IH]; cbn [map]; constructor;
      [apply normalize_column_cases | exact IH].
  - apply normalize_column_alias.
  - f_equal. rewrite List.map_map. apply List.map_ext.
    intros c. apply normalize_column_idem.
Qed.

Lemma normalize_columns_canonical_witness :
  normalize_column "  E-Mail " = normalize_column "e-mail".
Proof.
  destruct (proj1 (proj2 (proj2 (proj2
              (normalize_columns_canonical {| columns := []; rows := [] |}))))
              "  E-Mail " "e-mail" eq_refl) as [H | [H _]].
  - exact H.
  - discriminate H.
Defined.

End LeadsExtras.

(* ================================================================== *)
(** * The blurb fetcher and the personalisation *)
(* ================================================================== *)

Module FetchExtras.
Import PyStr Re Mailer Leads World Run Spec PyStrFacts ReFacts PhraseExtras RunFacts
       Scenario.






Section WithEnv.
Variable E : env.





End WithEnv.



(** ** The helper phrase of the personalisation *)

Lemma extract_nonempty (text : string) : extract_helper_phrase text <> EmptyString.
Proof.
  destruct (extract_cases text) as [[_ ->] | [_ (c0 & _ & -> & Hl)]].
  - discriminate.
  - intros H. rewrite H in Hl. simpl in Hl. lia.
Qed.

Lemma extract_no_upper (text : string) : no_upper (extract_helper_phrase text).
Proof. apply (extract_trimmed text). Qed.

Lemma heuristic_pair_helper (company blurb your_role : string) :
  snd (heuristic_pair company blurb your_role) <> EmptyString
  /\ no_upper (snd (heuristic_pair company blurb your_role)).
Proof. split; [apply extract_nonempty | apply extract_no_upper]. Qed.

Lemma parse_reply_helper (company blurb your_role content : string) :
  snd (parse_reply company blurb your_role content) <> EmptyString
  /\ no_upper (snd (parse_reply company blurb your_role content)).
Proof.
  unfold parse_reply. cbv zeta. cbn [snd].
  match goal with
  | |- context [negb (truthy ?h)] => destruct (truthy h) eqn:Ht; cbn [negb]
  end.
  - split; [now apply truthy_true | apply lower_no_upper].
  - split; [apply extract_nonempty | apply extract_no_upper].
Qed.

Section Gpt.
Variable E : env.

(** X8.  Whatever the service answers, the helper phrase returned by
    [gpt_company_personalization] is not empty and has no upper-case
    letter; the function changes no file, requests no page and calls the
    service at most once. *)
Theorem gpt_helper_shape (company website blurb your_role : string) (w : world) :
  let res := gpt_company_personalization E company website blurb your_role w in
  snd (fst res) <> EmptyString
  /\ no_upper (snd (fst res))
  /\ fs (snd res) = fs w
  /\ exists evs,
      trace (snd res) = trace w ++ evs
      /\ Forall (fun e => is_print e \/ is_chat e) evs
      /\ count_events is_chat_b evs <= 1.
Proof.
  cbv zeta.
  destruct (gpt_company_personalization E company website blurb your_role w)
    as [pair w'] eqn:H.
  cbn [fst snd]. unfold gpt_company_personalization in H.
  destruct (negb (truthy (default EmptyString (getenv E "OPENAI_API_KEY")))
            || negb (openai_client E)).
  - unfold bind, print, emit, ret in H. injection H as <- <-. cbn [fs trace].
    destruct (heuristic_pair_helper company blurb your_role) as [H1 H2].
    split; [exact H1|]. split; [exact H2|]. split; [reflexivity|].
    eexists. split; [reflexivity|].
    split; [|unfold count_events; cbn [List.filter is_chat_b length app]; lia].
    constructor; [now left | constructor].
  - unfold bind at 1, print at 1, emit at 1 in H. unfold bind at 1, emit at 1 in H.
    unfold bind at 1, tick at 1 in H. cbn [fst snd fs trace] in H.
    destruct (chat_create E _ _) as [e|content].
    + unfold bind, print, emit, ret in H. injection H as <- <-. cbn [fs trace].
      destruct (heuristic_pair_helper company blurb your_role) as [H1 H2].
      split; [exact H1|]. split; [exact H2|]. split; [reflexivity|].
      eexists. rewrite <- !app_assoc. split; [reflexivity|].
      split; [|unfold count_events; cbn [List.filter is_chat_b length app]; lia].
      repeat constructor; simpl; tauto.
    + unfold ret in H. injection H as <- <-. cbn [fs trace].
      destruct (parse_reply_helper company blurb your_role content) as [H1 H2].
      split; [exact H1|]. split; [exact H2|]. split; [reflexivity|].
      eexists. rewrite <- !app_assoc. split; [reflexivity|].
      split; [|unfold count_events; cbn [List.filter is_chat_b length app]; lia].
      repeat constructor; simpl; tauto.
Qed.

(** X9.  Without a credential or a client the service is not called, and
    when the call fails the function returns what it returns without a
    credential: the fallback opener and the phrase extracted from the
    blurb, or from that opener when the blurb is empty. *)
Theorem gpt_falls_back (company website blurb your_role : string) (w : world) :
  (default EmptyString (getenv E "OPENAI_API_KEY") = EmptyString
   \/ openai_client E = false ->
   gpt_company_personalization E company website blurb your_role w
   = (heuristic_pair company blurb your_role,
      {| fs := fs w;
         trace := trace w ++ [EvPrint ("[NO GPT] Using fallback opener for "
                                       +:+ company)] |}))
  /\ (forall e,
        default EmptyString (getenv E "OPENAI_API_KEY") <> EmptyString ->
        openai_client E = true ->
        chat_create E (length (trace w) + 2)
                    (gpt_prompt company website blurb your_role) = inl e ->
        gpt_company_personalization E company website blurb your_role w
        = (heuristic_pair company blurb your_role,
           {| fs := fs w;
              trace := trace w
                       ++ [EvPrint ("Creating personalized opener for " +:+ company
                                    +:+ "...");
                           EvChat (gpt_prompt company website blurb your_role);
                           EvPrint ("[GPT ERROR for " +:+ company +:+ "]: " +:+ e)] |})).
Proof.
  unfold gpt_company_personalization. split.
  - intros H.
    assert (negb (truthy (default EmptyString (getenv E "OPENAI_API_KEY")))
            || negb (openai_client E) = true) as ->.
    { destruct H as [-> | ->]; [reflexivity | apply orb_true_r]. }
    reflexivity.
  - intros e Hk Hc He. apply truthy_true in Hk. rewrite Hk, Hc. cbn [negb orb].
    unfold bind at 1, print at 1, emit at 1. unfold bind at 1, emit at 1.
    unfold bind at 1, tick at 1. cbn [fst snd fs trace].
    rewrite <- app_assoc, length_app. cbn [app length].
    rewrite He. unfold bind, print, emit, ret. cbn [fst snd fs trace].
    now rewrite <- !app_assoc.
Qed.

End Gpt.

Lemma gpt_falls_back_witness :
  gpt_company_personalization offline "Acme Capital" "acme.com" EmptyString "Intern"
                              empty_world
  = (heuristic_pair "Acme Capital" EmptyString "Intern",
     {| fs := fs empty_world;
        trace := trace empty_world
                 ++ [EvPrint ("[NO GPT] Using fallback opener for " +:+ "Acme Capital")] |}).
Proof.
  apply (proj1 (gpt_falls_back offline "Acme Capital" "acme.com" EmptyString "Intern"
                  empty_world)).
  left. reflexivity.
Defined.

End FetchExtras.

(* ================================================================== *)
(** * More on the rows and on the run *)
(* ================================================================== *)

Module RunExtras.
Import PyStr Re Mailer Leads World Run Spec PyStrFacts ReFacts RunFacts RowClaims
       LogClaims Scenario.

Section WithEnv.
Variable E : env.
Variable a : args.

(** ** Which rows are skipped *)


(** ** What a record holds *)


(** ** A live delivery *)



End WithEnv.




(** ** Counting the effects of a run *)








Lemma write_all_snoc (l : list (string * string)) (f : string * string)
      (m : gmap string string) :
  write_all (l ++ [f]) m = <[fst f := snd f]> (write_all l m).
Proof. unfold write_all. now rewrite fold_left_app. Qed.

Lemma write_all_cons (l : list (string * string)) (f : string * string)
      (m : gmap string string) :
  write_all (f :: l) m = write_all l (<[fst f := snd f]> m).
Proof. reflexivity. Qed.

Section Loop.
Variable E : env.
Variable a : args.






(** ** A whole run *)











End Loop.







End RunExtras.

(* ================================================================== *)
(** * The log can be read back *)
(* ================================================================== *)

Module CsvExtras.
Import PyStr Mailer Leads World Run Spec PyStrFacts Scenario.

Lemma snoc_append (cur : string) (c : ascii) (f : string) :
  snoc cur c +:+ f = cur +:+ String c f.
Proof. unfold snoc. now rewrite append_assoc, append_cons, append_nil. Qed.

Lemma append_empty_r (s : string) : s +:+ EmptyString = s.
Proof. induction s as [|c s IH]; [reflexivity|]. now rewrite append_cons, IH. Qed.

Lemma csv_special_false (c : ascii) :
  csv_special c = false ->
  (code c =? 44) = false /\ (code c =? 34) = false /\ (code c =? 13) = false.
Proof.
  unfold csv_special. intros H.
  apply orb_false_iff in H as [H _]. apply orb_false_iff in H as [H H13].
  apply orb_false_iff in H as [H44 H34]. auto.
Qed.

(** A field without special characters is read as it stands. *)
Lemma csv_read_plain (f : string) :
  forall (cur : string) (row : list string) (rows : list (list string)) (rest : string),
    existsb csv_special (chars f) = false ->
    csv_read InPlain cur row rows (f +:+ rest)
    = csv_read InPlain (cur +:+ f) row rows rest.
Proof.
  induction f as [|c f IH]; intros cur row rows rest H.
  - now rewrite append_nil, append_empty_r.
  - cbn [chars list_ascii_of_string existsb] in H.
    apply orb_false_iff in H as [Hc Hf].
    destruct (csv_special_false c Hc) as (H44 & H34 & H13).
    rewrite append_cons. cbn [csv_read]. rewrite H44, H13, H34.
    rewrite IH by exact Hf. now rewrite snoc_append.
Qed.

(** The inside of a quoted field, up to its closing quote. *)
Lemma csv_read_quoted (f : string) :
  forall (cur : string) (row : list string) (rows : list (list string)) (rest : string),
    csv_read InQuoted cur row rows (csv_escape f +:+ String QUOTE rest)
    = csv_read AfterQuote (cur +:+ f) row rows rest.
Proof.
  induction f as [|c f IH]; intros cur row rows rest.
  - cbn [csv_escape]. rewrite append_nil, append_empty_r. reflexivity.
  - cbn [csv_escape]. destruct (code c =? 34) eqn:Hq.
    + rewrite !append_cons. cbn [csv_read]. rewrite Hq.
      assert (H44 : (code c =? 44) = false).
      { apply Nat.eqb_eq in Hq. rewrite Hq. reflexivity. }
      assert (H13 : (code c =? 13) = false).
      { apply Nat.eqb_eq in Hq. rewrite Hq. reflexivity. }
      rewrite H44, H13. rewrite IH. now rewrite snoc_append.
    + rewrite append_cons. cbn [csv_read]. rewrite Hq.
      rewrite IH. now rewrite snoc_append.
Qed.

Lemma csv_read_field (f : string) (t : ascii) (row : list string)
      (rows : list (list string)) (rest : string) :
  code t = 44 \/ code t = 13 ->
  csv_read AtStart EmptyString row rows (csv_field f +:+ String t rest)
  = after_field t f row rows rest.
Proof.
  intros Ht. unfold csv_field, after_field.
  assert (Hend : forall mode, mode = AtStart \/ mode = InPlain \/ mode = AfterQuote ->
                   csv_read mode f row rows (String t rest)
                   = if code t =? 44
                     then csv_read AtStart EmptyString (row ++ [f]) rows rest
                     else csv_read AfterCR EmptyString [] (rows ++ [row ++ [f]]) rest).
  { intros mode Hm. cbn [csv_read].
    destruct Ht as [Ht | Ht]; rewrite Ht; cbn [Nat.eqb];
      destruct Hm as [-> | [-> | ->]]; reflexivity. }
  destruct (existsb csv_special (chars f)) eqn:Hsp.
  - rewrite !append_cons, append_assoc, append_cons, append_nil.
    cbn [csv_read]. change (code QUOTE =? 44) with false.
    change (code QUOTE =? 13) with false. change (code QUOTE =? 34) with true.
    cbv iota. rewrite csv_read_quoted, append_nil. apply Hend. auto.
  - destruct f as [|c f].
    + rewrite append_nil. apply Hend. auto.
    + cbn [chars list_ascii_of_string existsb] in Hsp.
      apply orb_false_iff in Hsp as [Hc Hf].
      destruct (csv_special_false c Hc) as (H44 & H34 & H13).
      rewrite append_cons. cbn [csv_read]. rewrite H44, H13, H34.
      rewrite csv_read_plain by exact Hf.
      rewrite snoc_append, append_nil. apply Hend. auto.
Qed.

(** A line of at least one field. *)
Lemma csv_read_line (fields : list string) :
  forall (f : string) (row : list string) (rows : list (list string)) (rest : string),
    csv_read AtStart EmptyString row rows (csv_line (f :: fields) +:+ rest)
    = csv_read AtStart EmptyString [] (rows ++ [row ++ f :: fields]) rest.
Proof.
  unfold csv_line.
  induction fields as [|g fields IH]; intros f row rows rest.
  - cbn [map join]. unfold CRLF. rewrite append_assoc, append_cons.
    rewrite csv_read_field by (right; reflexivity).
    unfold after_field. change (code (ascii_of_nat 13) =? 44) with false.
    cbv iota. rewrite append_cons, append_nil. reflexivity.
  - change (join "," (map csv_field (f :: g :: fields)))
      with (csv_field f +:+ "," +:+ join "," (map csv_field (g :: fields))).
    rewrite !append_assoc. rewrite append_cons, append_nil.
    rewrite csv_read_field by (left; reflexivity).
    unfold after_field. change (code "," =? 44) with true. cbv iota.
    rewrite <- append_assoc. rewrite IH. now rewrite <- app_assoc.
Qed.

Lemma csv_read_rows (recs : list log_record) :
  forall rows : list (list string),
    csv_read AtStart EmptyString [] rows (csv_rows recs)
    = rows ++ map record_fields recs.
Proof.
  induction recs as [|r recs IH]; intros rows.
  - cbn [csv_rows csv_read map]. now rewrite app_nil_r.
  - cbn [csv_rows map]. unfold record_fields at 1.
    rewrite csv_read_line. cbn [app]. rewrite IH, <- app_assoc. reflexivity.
Qed.

Lemma record_fields_inj (r1 r2 : log_record) :
  record_fields r1 = record_fields r2 -> r1 = r2.
Proof.
  destruct r1, r2. unfold record_fields. cbn. intros H.
  injection H as -> -> -> -> -> -> -> ->. reflexivity.
Qed.

(** X19.  The rows written to the log determine the records: two lists of
    records that give the same text are the same list, whatever commas,
    quotes and line breaks their fields hold. *)
Theorem log_determines_records (l1 l2 : list log_record) :
  csv_rows l1 = csv_rows l2 -> l1 = l2.
Proof.
  intros H.
  assert (Hm : map record_fields l1 = map record_fields l2).
  { pose proof (csv_read_rows l1 []) as H1. pose proof (csv_read_rows l2 []) as H2.
    rewrite H in H1. rewrite H1 in H2. exact H2. }
  clear H. revert l2 Hm.
  induction l1 as [|r1 l1 IH]; intros [|r2 l2] Hm; try discriminate; [reflexivity|].
  cbn [map] in Hm.
  pose proof (f_equal (List.hd []) Hm) as Hr.
  pose proof (f_equal (@List.tl _) Hm) as Hl. cbn [List.hd List.tl] in Hr, Hl.
  apply record_fields_inj in Hr. subst r2. f_equal. now apply IH.
Qed.

Lemma log_determines_records_witness :
  csv_rows [comma_record] = csv_rows [comma_record]
  /\ [comma_record] = [comma_record].
Proof.
  split; [reflexivity|].
  apply (log_determines_records [comma_record] [comma_record]). reflexivity.
Defined.

End CsvExtras.
